(** * Dev Events: the read API, the cached connection and the document models

    A shallow embedding of
      - [app/api/events/[slug]/route.ts]: [dbConnect], [isValidSlug], [GET];
      - [lib/mongodb.ts]: [connectDB];
      - [database/booking.model.ts]: the Booking schema and its pre-save hook;
    and of the slug derivation of the Event model.

    JavaScript strings are modelled by [string]: a character is a UTF-16 code
    unit below 256.  Thrown values are modelled by their message. *)

From Stdlib Require Import ZArith Ascii String List Bool Lia DecimalString.
From stdpp Require Import base option list strings gmap.

Local Open Scope string_scope.

(** ** Completions of JavaScript evaluations *)

Definition Error := string.

Inductive completion (A : Type) : Type :=
| Normal (a : A)
| Throw (e : Error).
Arguments Normal {A} a.
Arguments Throw {A} e.

Definition bind {A B : Type} (c : completion A) (k : A -> completion B) : completion B :=
  match c with
  | Normal a => k a
  | Throw e => Throw e
  end.

Notation "'let*' x := c 'in' k" := (bind c (fun x => k))
  (at level 10, x name, c at level 100, k at level 200, only parsing).

(** ** JavaScript values *)

Module JS.

(** The values a route parameter or a stored field can hold.  [VNum] is an
    integer-valued number printed in plain decimal digits; [VObj] is an
    object, carrying the text its [toString] gives. *)
Inductive value : Type :=
| VUndefined
| VNull
| VBool (b : bool)
| VNum (n : Z)
| VStr (s : string)
| VObj (repr : string).

(** [!v] is [negb (truthy v)]. *)
Definition truthy (v : value) : bool :=
  match v with
  | VUndefined | VNull => false
  | VBool b => b
  | VNum n => negb (n =? 0)%Z
  | VStr s => negb (String.eqb s "")
  | VObj _ => true
  end.

(** [String(v)]. *)
Definition String_ (v : value) : string :=
  match v with
  | VUndefined => "undefined"
  | VNull => "null"
  | VBool true => "true"
  | VBool false => "false"
  | VNum n => NilZero.string_of_int (Z.to_int n)
  | VStr s => s
  | VObj repr => repr
  end.

(** *** Strings: [toLowerCase], [trim] and the class [\s] *)

Definition chars (s : string) : list ascii := list_ascii_of_string s.
Definition text (l : list ascii) : string := string_of_list_ascii l.

Definition code (c : ascii) : N := N_of_ascii c.

(** [\s], and the characters [trim] removes: TAB, LF, VT, FF, CR, SP, NBSP. *)
Definition is_space (c : ascii) : bool :=
  let n := code c in
  ((9 <=? n) && (n <=? 13) || (n =? 32) || (n =? 160))%N.

(** The letters with a lower-case form: A-Z, and the Latin-1 capitals
    U+00C0-U+00DE apart from the multiplication sign U+00D7. *)
Definition is_upper (c : ascii) : bool :=
  let n := code c in
  ((65 <=? n) && (n <=? 90) || (192 <=? n) && (n <=? 222) && negb (n =? 215))%N.

Definition lower_char (c : ascii) : ascii :=
  if is_upper c then ascii_of_N (code c + 32) else c.

Fixpoint drop_leading (p : ascii -> bool) (l : list ascii) : list ascii :=
  match l with
  | [] => []
  | c :: r => if p c then drop_leading p r else l
  end.

Fixpoint drop_trailing (p : ascii -> bool) (l : list ascii) : list ascii :=
  match l with
  | [] => []
  | c :: r =>
      match drop_trailing p r with
      | [] => if p c then [] else [c]
      | r' => c :: r'
      end
  end.

(** [s.toLowerCase()]. *)
Definition toLowerCase (s : string) : string := text (map lower_char (chars s)).

(** [s.trim()]. *)
Definition trim (s : string) : string :=
  text (drop_trailing is_space (drop_leading is_space (chars s))).

End JS.

(** ** The cached connection of the route: [dbConnect] *)

Module Conn.

(** The value [mongoose.connect] resolves to. *)
Definition Handle := nat.

(** The state of a promise made by [mongoose.connect]. *)
Inductive settlement : Type :=
| Pending
| Fulfilled (h : Handle)
| Rejected (e : Error).

(** A promise is named by its position in the heap of promises. *)
Definition PromiseRef := nat.

(** [type MongooseCache = { conn; promise }]. *)
Record MongooseCache : Type := mkCache {
  conn : option Handle;
  promise : option PromiseRef
}.

(** The module state: the constant [MONGODB_URI], read once when the module
    is loaded, the global cache, and the promises [mongoose.connect] has
    returned so far, one for every invocation. *)
Record World : Type := mkWorld {
  MONGODB_URI : option string;
  cache : MongooseCache;
  heap : list settlement
}.

(** The number of invocations of [mongoose.connect]. *)
Definition connect_calls (w : World) : nat := length (heap w).

(** [!MONGODB_URI] is false. *)
Definition configured (uri : option string) : bool :=
  match uri with
  | Some u => negb (String.eqb u "")
  | None => false
  end.

Definition not_configured : Error :=
  "MONGODB_URI is not configured in environment variables".

(** An invocation of the async function is either settled or suspended at
    [await cache.promise]. *)
Inductive call : Type :=
| Done (r : completion Handle)
| Awaiting (p : PromiseRef).

(** [dbConnect()] up to its [await]. *)
Definition dbConnect_start (w : World) : call * World :=
  if negb (configured (MONGODB_URI w)) then (Done (Throw not_configured), w)
  else
    match conn (cache w) with
    | Some h => (Done (Normal h), w)
    | None =>
        match promise (cache w) with
        | Some p => (Awaiting p, w)
        | None =>
            let p := length (heap w) in
            (Awaiting p,
             mkWorld (MONGODB_URI w)
                     (mkCache (conn (cache w)) (Some p))
                     (heap w ++ [Pending]))
        end
    end.

(** [cache.conn = await cache.promise; return cache.conn], once the awaited
    promise [p] is settled.  [None]: [p] is still pending. *)
Definition dbConnect_resume (p : PromiseRef) (w : World) : option (completion Handle * World) :=
  match heap w !! p with
  | Some (Fulfilled h) =>
      Some (Normal h,
            mkWorld (MONGODB_URI w) (mkCache (Some h) (promise (cache w))) (heap w))
  | Some (Rejected e) => Some (Throw e, w)
  | _ => None
  end.

(** The event loop around the accessor: the module state and the
    invocations of [dbConnect] made so far. *)
Record Sys : Type := mkSys {
  world : World;
  calls : list call
}.

Inductive event : Type :=
| Call                                             (* a caller invokes dbConnect() *)
| Settle (p : PromiseRef) (r : completion Handle)  (* the driver settles a connect promise *)
| Resume (i : nat).                                (* invocation i continues after its await *)

Definition settle (r : completion Handle) : settlement :=
  match r with
  | Normal h => Fulfilled h
  | Throw e => Rejected e
  end.

(** A connection accessor: an async function with one [await], given by what
    it does up to the [await] and what it does after it. *)
Record Accessor : Type := mkAccessor {
  start : World -> call * World;
  resume : PromiseRef -> World -> option (completion Handle * World)
}.

(** The accessor of the route. *)
Definition dbConnect : Accessor := mkAccessor dbConnect_start dbConnect_resume.

Definition step (acc : Accessor) (e : event) (s : Sys) : option Sys :=
  match e with
  | Call =>
      let '(c, w) := start acc (world s) in
      Some (mkSys w (calls s ++ [c]))
  | Settle p r =>
      match heap (world s) !! p with
      | Some Pending =>
          Some (mkSys (mkWorld (MONGODB_URI (world s)) (cache (world s))
                               (<[p := settle r]> (heap (world s))))
                      (calls s))
      | _ => None
      end
  | Resume i =>
      match calls s !! i with
      | Some (Awaiting p) =>
          match resume acc p (world s) with
          | Some (r, w) => Some (mkSys w (<[i := Done r]> (calls s)))
          | None => None
          end
      | _ => None
      end
  end.

Fixpoint run (acc : Accessor) (tr : list event) (s : Sys) : option Sys :=
  match tr with
  | [] => Some s
  | e :: tr' =>
      match step acc e s with
      | Some s' => run acc tr' s'
      | None => None
      end
  end.

(** The module right after it is loaded: [{ conn: null, promise: null }]. *)
Definition boot (uri : option string) : Sys :=
  mkSys (mkWorld uri (mkCache None None) []) [].

(** The cache slot and the heap of connect promises go together: either no
    attempt was ever started, or the one attempt started is the cached one. *)
Definition one_attempt (s : Sys) : Prop :=
  (promise (cache (world s)) = None /\ heap (world s) = [])
  \/ (promise (cache (world s)) = Some 0 /\ length (heap (world s)) = 1).

(** What holds of every state reached when the URI is not configured. *)
Definition never_connects (uri : option string) (s : Sys) : Prop :=
  world s = world (boot uri)
  /\ Forall (fun c => c = Done (Throw not_configured)) (calls s).

(** With the URI configured: there is at most the one cached attempt, a
    cached handle is the value that attempt was fulfilled with, and a settled
    call carries the outcome of that attempt. *)
Definition attempt_outcome (s : Sys) : Prop :=
  configured (MONGODB_URI (world s)) = true
  /\ one_attempt s
  /\ (forall h, conn (cache (world s)) = Some h -> heap (world s) = [Fulfilled h])
  /\ (forall i r, calls s !! i = Some (Done r) -> heap (world s) = [settle r]).

(** A cached handle is the value some connect promise was fulfilled with. *)
Definition cached_is_fulfilled (s : Sys) : Prop :=
  forall h, conn (cache (world s)) = Some h ->
            exists p, heap (world s) !! p = Some (Fulfilled h).

End Conn.

(** ** The shared accessor of [lib/mongodb.ts]: [connectDB] *)

Module LibMongodb.
Import Conn.

Definition undefined_uri : Error :=
  "Please define the MONGODB_URI environment variable inside .env.local".

(** Loading the module: it throws when [MONGODB_URI] is not defined, and
    otherwise starts from the empty cache. *)
Definition load (uri : option string) : completion Sys :=
  if negb (configured uri) then Throw undefined_uri else Normal (boot uri).

(** [connectDB()] up to its [await]. *)
Definition connectDB_start (w : World) : call * World :=
  match conn (cache w) with
  | Some h => (Done (Normal h), w)
  | None =>
      match promise (cache w) with
      | Some p => (Awaiting p, w)
      | None =>
          let p := length (heap w) in
          (Awaiting p,
           mkWorld (MONGODB_URI w)
                   (mkCache (conn (cache w)) (Some p))
                   (heap w ++ [Pending]))
      end
  end.

(** [try { cached.conn = await cached.promise } catch (error)
    { cached.promise = null; throw error }], once [p] is settled. *)
Definition connectDB_resume (p : PromiseRef) (w : World) : option (completion Handle * World) :=
  match heap w !! p with
  | Some (Fulfilled h) =>
      Some (Normal h,
            mkWorld (MONGODB_URI w) (mkCache (Some h) (promise (cache w))) (heap w))
  | Some (Rejected e) =>
      Some (Throw e,
            mkWorld (MONGODB_URI w) (mkCache (conn (cache w)) None) (heap w))
  | _ => None
  end.

(** The accessor of the library module. *)
Definition connectDB : Accessor := mkAccessor connectDB_start connectDB_resume.

End LibMongodb.

(** ** The route handler: [isValidSlug] and [GET] *)

Module Route.
Import JS.

(** The body given to [NextResponse.json]. *)
#[local] Unset Elimination Schemes.
Inductive json : Type :=
| JBool (b : bool)
| JString (s : string)
| JObject (fields : list (string * json)).
#[local] Set Elimination Schemes.

(** What [NextResponse.json(body, { status, headers })] builds. *)
Record Response : Type := mkResponse {
  status : Z;
  headers : list (string * string);
  body : json
}.

(** A lean [Event] document, as the store returns it: field name to value. *)
Abbreviation Doc := (gmap string value).

(** [doc.field]: [undefined] when the document has no such field. *)
Definition field (doc : Doc) (name : string) : value :=
  default VUndefined (doc !! name).

(** [context: { params: { slug?: string } }], read by [context?.params?.slug]. *)
Record Params : Type := mkParams { slug : value }.
Record Context : Type := mkContext { params : option Params }.

Definition get_slug (context : option Context) : value :=
  match context with
  | Some c =>
      match params c with
      | Some p => slug p
      | None => VUndefined
      end
  | None => VUndefined
  end.

(** How the two awaited operations complete for this request:
    [await dbConnect()] and [await Event.findOne({ slug }).lean().exec()]. *)
Record Env : Type := mkEnv {
  dbConnect : completion Conn.Handle;
  findOne : value -> completion (option Doc)
}.

(** A line written by [console.error]. *)
Record LogLine : Type := mkLog { label : string; logged : Error }.

(** The character class [[a-z0-9-]]. *)
Definition slug_char (c : ascii) : bool :=
  let n := N_of_ascii c in
  ((97 <=? n) && (n <=? 122) || (48 <=? n) && (n <=? 57) || (n =? 45))%N.

(** [typeof value === "string" && /^[a-z0-9-]{1,100}$/.test(value)]. *)
Definition isValidSlug (v : value) : bool :=
  match v with
  | VStr s =>
      (1 <=? String.length s)%nat && (String.length s <=? 100)%nat
      && forallb slug_char (list_ascii_of_string s)
  | _ => false
  end.

Definition error_body (code message : string) : json :=
  JObject [("success", JBool false);
           ("error", JObject [("code", JString code); ("message", JString message)])].

Definition cache_control : string * string :=
  ("Cache-Control", "public, s-maxage=60, stale-while-revalidate=300").

(** [const event: EventPublic = { image: String(doc.image), ... }]. *)
Definition event_public (doc : Doc) : json :=
  JObject [("image", JString (String_ (field doc "image")));
           ("title", JString (String_ (field doc "title")));
           ("slug", JString (String_ (field doc "slug")));
           ("location", JString (String_ (field doc "location")));
           ("date", JString (String_ (field doc "date")));
           ("time", JString (String_ (field doc "time")))].

(** The [try] block of [GET]. *)
Definition GET_try (context : option Context) (env : Env) : completion Response :=
  let slug := get_slug context in
  if negb (truthy slug) then
    Normal (mkResponse 400 []
              (error_body "MISSING_SLUG" "Parameter 'slug' is required."))
  else if negb (isValidSlug slug) then
    Normal (mkResponse 400 []
              (error_body "INVALID_SLUG"
                 "Parameter 'slug' must be a lowercase slug (a-z, 0-9, -)."))
  else
    let* _ := dbConnect env in
    let* doc := findOne env slug in
    match doc with
    | None =>
        Normal (mkResponse 404 [] (error_body "NOT_FOUND" "Event not found."))
    | Some d =>
        Normal (mkResponse 200 [cache_control]
                  (JObject [("success", JBool true); ("data", event_public d)]))
    end.

(** [GET]: the [try] block and its [catch], with what [console.error] wrote. *)
Definition GET (context : option Context) (env : Env) : completion Response * list LogLine :=
  match GET_try context env with
  | Normal r => (Normal r, [])
  | Throw err =>
      (Normal (mkResponse 500 []
                 (error_body "INTERNAL_SERVER_ERROR" "An unexpected error occurred.")),
       [mkLog "[GET] /api/events/[slug] error" err])
  end.

(** The request [GET /api/events/<s>]. *)
Definition request (s : string) : option Context :=
  Some (mkContext (Some (mkParams (VStr s)))).

(** The fixed answer of the [catch] block. *)
Definition internal_error : Response :=
  mkResponse 500 []
    (error_body "INTERNAL_SERVER_ERROR" "An unexpected error occurred.").

(** The connection or the query that follows it fails with [e]. *)
Definition fails_with (env : Env) (slug : value) (e : Error) : Prop :=
  dbConnect env = Throw e
  \/ (exists h, dbConnect env = Normal h /\ findOne env slug = Throw e).

(** The six public fields. *)
Definition public_fields : list string :=
  ["image"; "title"; "slug"; "location"; "date"; "time"].

(** A stored document with an internal identifier and without [time], and a
    store that connects and finds it. *)
Definition sample_doc : Doc :=
  <["_id" := VObj "65f0c0ffee0ddba11c0ffee5"]>
    (<["image" := VStr "/images/event1.png"]>
       (<["title" := VStr "React Summit US 2025"]>
          (<["slug" := VStr "react-summit-us-2025"]>
             (<["location" := VStr "San Francisco, CA, USA"]>
                (<["date" := VStr "2025-11-07"]> ∅))))).

Definition sample_env : Env := mkEnv (Normal 0) (fun _ => Normal (Some sample_doc)).

(** [body[key]] on a JSON object. *)
Definition json_get (key : string) (j : json) : option json :=
  match j with
  | JObject fields => snd <$> find (fun kv => String.eqb (fst kv) key) fields
  | _ => None
  end.

(** The characters of the class [[a-z0-9-]], written out. *)
Definition slug_alphabet : string := "abcdefghijklmnopqrstuvwxyz0123456789-".

End Route.

(** ** The slug of an Event *)

Module Slug.
Import JS.

(** The character class [[a-z0-9]]. *)
Definition alnum (c : ascii) : bool :=
  let n := code c in
  ((97 <=? n) && (n <=? 122) || (48 <=? n) && (n <=? 57))%N.

Definition is_hyphen (c : ascii) : bool := (code c =? 45)%N.

Definition hyphen : ascii := "-"%char.

(** Every maximal run of characters outside [[a-z0-9]] becomes one hyphen.
    [in_run]: the character before was outside the class. *)
Fixpoint hyphenate (in_run : bool) (l : list ascii) : list ascii :=
  match l with
  | [] => []
  | c :: r =>
      if alnum c then c :: hyphenate false r
      else if in_run then hyphenate true r
      else hyphen :: hyphenate true r
  end.

Definition replace_runs (s : string) : string := text (hyphenate false (chars s)).

(** Leading and trailing hyphens are removed. *)
Definition strip_hyphens (s : string) : string :=
  text (drop_trailing is_hyphen (drop_leading is_hyphen (chars s))).

(** Modelled from the spec: the slug derivation of [database/event.model.ts],
    which is not part of the sources at hand: lowercase, replace any run of
    characters outside [[a-z0-9]] with a single hyphen, trim leading and
    trailing hyphens. *)
Definition slugify (title : string) : string :=
  strip_hyphens (replace_runs (toLowerCase title)).

(** Modelled from the spec: what [Event.create] of [database/event.model.ts]
    stores for a given title: [title] is a trimmed string, and [slug] is
    computed from [title] at creation. *)
Record EventKeys : Type := mkEventKeys { title : string; slug : string }.

Definition create (given_title : string) : EventKeys :=
  let t := trim given_title in
  mkEventKeys t (slugify t).

(** [slugify] on the list of characters of the title. *)
Definition slug_list (l : list ascii) : list ascii :=
  drop_trailing is_hyphen (drop_leading is_hyphen (hyphenate false (map lower_char l))).

(** The shape of a hyphenated text: characters of [[a-z0-9]] and single
    hyphens, no hyphen right after a hyphen, and, when [after_hyphen], no
    hyphen first. *)
Fixpoint hyphenated (after_hyphen : bool) (l : list ascii) : bool :=
  match l with
  | [] => true
  | c :: r =>
      if alnum c then hyphenated false r
      else is_hyphen c && negb after_hyphen && hyphenated true r
  end.

End Slug.

(** ** The Booking model: schema validators and the pre-save hook *)

Module BookingModel.
Import JS.

(** A [Types.ObjectId]: a 12-byte number. *)
Definition ObjectId := N.

(** The [eventId] given to [Booking.create]: nothing ([undefined] or
    [null]), a value that does not cast to an ObjectId (such as
    ['invalid-id']), or an ObjectId. *)
Inductive EventIdInput : Type :=
| NoId
| BadId (raw : string)
| Id (oid : ObjectId).

Record Fields : Type := mkFields {
  given_eventId : EventIdInput;
  given_email : option string
}.

Record Booking : Type := mkBooking {
  _id : ObjectId;
  eventId : ObjectId;
  email : string;
  createdAt : Z;
  updatedAt : Z
}.

(** The two collections. *)
Record Store : Type := mkStore {
  events : gmap ObjectId (gmap string value);
  bookings : list Booking
}.

(** What can be wrong with one path of the schema. *)
Inductive PathError : Type :=
| RequiredError (message : string)
| CastError
| ValidatorError (message : string).

Inductive SaveError : Type :=
| ValidationError (errors : list (string * PathError))
| HookError (message : string).

(** [Event.findById(value)]. *)
Definition findById (st : Store) (oid : ObjectId) : option (gmap string value) :=
  events st !! oid.

(** The validator of [eventId]: [event !== null]. *)
Definition eventId_validator (st : Store) (oid : ObjectId) : bool :=
  bool_decide (is_Some (findById st oid)).

(** The path [eventId]: cast, [required], then the validator. *)
Definition check_eventId (st : Store) (i : EventIdInput) : PathError + ObjectId :=
  match i with
  | NoId => inl (RequiredError "Event ID is required")
  | BadId _ => inl CastError
  | Id oid =>
      if eventId_validator st oid then inr oid
      else inl (ValidatorError "Referenced event does not exist")
  end.

Definition email_char (c : ascii) : bool :=
  negb (is_space c) && negb (code c =? 64)%N.

(** The text before the first [@] and the text after it. *)
Fixpoint split_at (l : list ascii) : option (list ascii * list ascii) :=
  match l with
  | [] => None
  | c :: r =>
      if (code c =? 64)%N then Some ([], r)
      else match split_at r with
           | Some (a, b) => Some (c :: a, b)
           | None => None
           end
  end.

(** A dot with at least one character after it. *)
Fixpoint dot_inside (l : list ascii) : bool :=
  match l with
  | [] => false
  | c :: r => (code c =? 46)%N && negb (bool_decide (r = [])) || dot_inside r
  end.

(** [/^[^\s@]+@[^\s@]+\.[^\s@]+$/.test(value)]. *)
Definition emailRegex (value : string) : bool :=
  match split_at (chars value) with
  | Some (a, b) =>
      negb (bool_decide (a = [])) && forallb email_char a
      && forallb email_char b
      && match b with [] => false | _ :: r => dot_inside r end
  | None => false
  end.

(** The setters of [email]: [trim: true], [lowercase: true]. *)
Definition set_email (raw : string) : string := toLowerCase (trim raw).

(** The path [email]: setters, [required], then the validator. *)
Definition check_email (i : option string) : PathError + string :=
  match i with
  | None => inl (RequiredError "Email is required")
  | Some raw =>
      if String.eqb (set_email raw) "" then inl (RequiredError "Email is required")
      else if emailRegex (set_email raw) then inr (set_email raw)
      else inl (ValidatorError "Please provide a valid email address")
  end.

(** The entry of a path in [ValidationError.errors]. *)
Definition path_errors {A : Type} (path : string) (r : PathError + A) : list (string * PathError) :=
  match r with
  | inl e => [(path, e)]
  | inr _ => []
  end.

(** [BookingSchema.pre('save', ...)]: the error it passes to [next], if any. *)
Definition pre_save (st : Store) (isNew isModified_eventId : bool) (oid : ObjectId) : option SaveError :=
  if isModified_eventId || isNew then
    match findById st oid with
    | Some _ => None
    | None => Some (HookError "Cannot create booking: Event does not exist")
    end
  else None.

(** [Booking.create(fields)]: validation, the pre-save hook, the insert.
    [fresh] is the [_id] of the new document, [now] the time of the write. *)
Definition create (fields : Fields) (fresh : ObjectId) (now : Z) (st : Store)
  : (SaveError + Booking) * Store :=
  match check_eventId st (given_eventId fields), check_email (given_email fields) with
  | inr oid, inr mail =>
      match pre_save st true true oid with
      | Some err => (inl err, st)
      | None =>
          let b := mkBooking fresh oid mail now now in
          (inr b, mkStore (events st) (bookings st ++ [b])%list)
      end
  | r1, r2 =>
      (inl (ValidationError (path_errors "eventId" r1 ++ path_errors "email" r2)%list), st)
  end.

(** The given [eventId] is a reference, and no Event of the store answers to
    it: it does not cast to an ObjectId, or no Event has that ObjectId. *)
Definition dangling (st : Store) (i : EventIdInput) : Prop :=
  match i with
  | NoId => False
  | BadId _ => True
  | Id oid => findById st oid = None
  end.

(** The errors of the path [eventId] that speak of the reference. *)
Definition reference_error (e : PathError) : Prop :=
  e = CastError \/ e = ValidatorError "Referenced event does not exist".

(** Every booking of the store refers to an Event of the store. *)
Definition referential (st : Store) : Prop :=
  Forall (fun b => is_Some (findById st (eventId b))) (bookings st).

(** The shape [local@domain.tld]: three parts that are not empty and hold
    neither white space nor [@], with [@] and a dot between them. *)
Definition email_shape (l : list ascii) : Prop :=
  exists a b c : list ascii,
    l = (a ++ "@"%char :: b ++ "."%char :: c)%list
    /\ a <> [] /\ b <> [] /\ c <> []
    /\ forallb email_char (a ++ b ++ c)%list = true.

End BookingModel.

(** * Properties *)

(** ** The cached connection *)

Section ConnFacts.
Import Conn.

(** Properties kept by every step of the event loop are kept by every run. *)
Lemma run_preserves (acc : Accessor) (P : Sys -> Prop) :
  (forall e s s', P s -> step acc e s = Some s' -> P s') ->
  forall tr s s', P s -> run acc tr s = Some s' -> P s'.
Proof.
  intros Hstep tr. induction tr as [|e tr IH]; intros s s' Hs Hrun; simpl in Hrun.
  - by inversion Hrun; subst.
  - destruct (step acc e s) as [s1|] eqn:He; [|done].
    eapply IH; [|exact Hrun]. eauto.
Qed.

(** No step writes [MONGODB_URI]. *)
Lemma step_uri e s s' :
  step dbConnect e s = Some s' -> MONGODB_URI (world s') = MONGODB_URI (world s).
Proof.
  destruct e as [|p r|i]; simpl.
  - unfold dbConnect_start.
    destruct (negb _); [by intros [= <-]|].
    destruct (conn _); [by intros [= <-]|].
    destruct (promise _); by intros [= <-].
  - destruct (heap (world s) !! p) as [[| |]|]; try done. by intros [= <-].
  - destruct (calls s !! i) as [[|p]|]; try done.
    unfold dbConnect_resume.
    destruct (heap (world s) !! p) as [[| |]|]; try done; by intros [= <-].
Qed.

Lemma step_one_attempt e s s' :
  one_attempt s -> step dbConnect e s = Some s' -> one_attempt s'.
Proof.
  unfold one_attempt. intros Inv. destruct e as [|p r|i]; simpl.
  - unfold dbConnect_start.
    destruct (negb _); [by intros [= <-]|].
    destruct (conn _); [by intros [= <-]|].
    destruct Inv as [[Hp Hh]|[Hp Hh]]; rewrite Hp; intros [= <-]; simpl.
    + right. by rewrite Hh.
    + right. by rewrite Hp.
  - destruct (heap (world s) !! p) as [[| |]|]; try done. intros [= <-]; simpl.
    destruct Inv as [[Hp Hh]|[Hp Hh]]; [left|right]; split; try done.
    + by rewrite Hh.
    + by rewrite length_insert.
  - destruct (calls s !! i) as [[|p]|]; try done.
    unfold dbConnect_resume.
    destruct (heap (world s) !! p) as [[| |]|]; try done; by intros [= <-].
Qed.

(** While an attempt is cached and no handle is, calls only wait for it. *)
Lemma run_calls_waiting n s p :
  configured (MONGODB_URI (world s)) = true ->
  conn (cache (world s)) = None ->
  promise (cache (world s)) = Some p ->
  run dbConnect (replicate n Call) s
  = Some (mkSys (world s) (calls s ++ replicate n (Awaiting p))).
Proof.
  revert s. induction n as [|n IH]; intros s Hu Hc Hp; simpl.
  - rewrite app_nil_r. by destruct s.
  - unfold dbConnect_start. rewrite Hu, Hc, Hp. simpl.
    rewrite IH by done. simpl. by rewrite <- app_assoc.
Qed.

End ConnFacts.

(** C4. The cache admits at most one underlying connect attempt: with a
    cached handle [dbConnect] returns it and leaves the state as it is; with an
    attempt in flight it awaits that cached attempt and leaves the state as it
    is; any number [n >= 1] of calls made before the first attempt settles
    invoke [mongoose.connect] exactly once and all await that one promise; and
    no run of the event loop ever invokes it more than once. *)
Theorem dbConnect_single_attempt :
  (forall w h,
      Conn.configured (Conn.MONGODB_URI w) = true ->
      Conn.conn (Conn.cache w) = Some h ->
      Conn.dbConnect_start w = (Conn.Done (Normal h), w))
  /\ (forall w p,
      Conn.configured (Conn.MONGODB_URI w) = true ->
      Conn.conn (Conn.cache w) = None ->
      Conn.promise (Conn.cache w) = Some p ->
      Conn.dbConnect_start w = (Conn.Awaiting p, w))
  /\ (forall uri n,
      Conn.configured uri = true -> 1 <= n ->
      exists s,
        Conn.run Conn.dbConnect (replicate n Conn.Call) (Conn.boot uri) = Some s
        /\ Conn.connect_calls (Conn.world s) = 1
        /\ Conn.calls s = replicate n (Conn.Awaiting 0))
  /\ (forall uri tr s,
      Conn.run Conn.dbConnect tr (Conn.boot uri) = Some s ->
      Conn.connect_calls (Conn.world s) <= 1).
Proof.
  repeat split.
  - intros w h Hu Hc. unfold Conn.dbConnect_start. by rewrite Hu, Hc.
  - intros w p Hu Hc Hp. unfold Conn.dbConnect_start. by rewrite Hu, Hc, Hp.
  - intros uri [|n] Hu Hn; [lia|]. simpl.
    unfold Conn.dbConnect_start. simpl. rewrite Hu. simpl.
    eexists. split; [by apply run_calls_waiting|]. done.
  - intros uri tr s Hrun.
    assert (Conn.one_attempt s) as [[_ Hh]|[_ Hh]].
    { eapply (run_preserves Conn.dbConnect Conn.one_attempt); [apply step_one_attempt| |exact Hrun].
      by left. }
    + unfold Conn.connect_calls. rewrite Hh. simpl. lia.
    + unfold Conn.connect_calls. lia.
Qed.

Lemma dbConnect_single_attempt_witness :
  exists s,
    Conn.run Conn.dbConnect (replicate 3 Conn.Call) (Conn.boot (Some "mongodb://localhost:27017/test-db")) = Some s
    /\ Conn.connect_calls (Conn.world s) = 1
    /\ Conn.calls s = replicate 3 (Conn.Awaiting 0).
Proof.
  destruct dbConnect_single_attempt as (_ & _ & H & _).
  apply H; [reflexivity | lia].
Defined.

Section FailedAttempt.
Import Conn.

(** A caller waiting for a rejected attempt gets the rejection, and the module
    state stays as it was: the rejected promise is still the cached one. *)
Lemma dbConnect_resume_rejected w p e :
  heap w !! p = Some (Rejected e) ->
  dbConnect_resume p w = Some (Throw e, w).
Proof. intros H. unfold dbConnect_resume. by rewrite H. Qed.

(** Every invocation suspended on a rejected attempt settles with its error. *)
Lemma dbConnect_failure_propagates s i p e :
  calls s !! i = Some (Awaiting p) ->
  heap (world s) !! p = Some (Rejected e) ->
  step dbConnect (Resume i) s
  = Some (mkSys (world s) (<[i := Done (Throw e)]> (calls s))).
Proof. intros Hi Hp. simpl. by rewrite Hi, (dbConnect_resume_rejected _ _ e). Qed.

(** After a rejected attempt, the next call of the route's accessor waits for
    the same rejected promise again. *)
Lemma dbConnect_after_failure w p :
  configured (MONGODB_URI w) = true ->
  conn (cache w) = None ->
  promise (cache w) = Some p ->
  dbConnect_start w = (Awaiting p, w).
Proof. intros Hu Hc Hp. unfold dbConnect_start. by rewrite Hu, Hc, Hp. Qed.

(** The accessor of [lib/mongodb.ts] does clear the slot: after a rejected
    attempt the cache is empty again and the next call starts a new attempt. *)
Lemma connectDB_failure_resets w p e :
  conn (cache w) = None ->
  heap w !! p = Some (Rejected e) ->
  exists w',
    LibMongodb.connectDB_resume p w = Some (Throw e, w')
    /\ promise (cache w') = None
    /\ LibMongodb.connectDB_start w'
       = (Awaiting (length (heap w)),
          mkWorld (MONGODB_URI w) (mkCache None (Some (length (heap w)))) (heap w ++ [Pending])).
Proof.
  intros Hc Hp. eexists. unfold LibMongodb.connectDB_resume. rewrite Hp.
  split; [reflexivity|]. split; [reflexivity|].
  unfold LibMongodb.connectDB_start. simpl. by rewrite Hc.
Qed.

(** The test "should reset promise on error to allow retry" of the library
    module: the first attempt fails, the second call connects again. *)
Example connectDB_retries_after_failure :
  run LibMongodb.connectDB
      [Call; Settle 0 (Throw "Transient error"); Resume 0;
       Call; Settle 1 (Normal 5); Resume 1]
      (boot (Some "mongodb://localhost:27017/test-db"))
  = Some (mkSys
            (mkWorld (Some "mongodb://localhost:27017/test-db")
                     (mkCache (Some 5) (Some 1))
                     [Rejected "Transient error"; Fulfilled 5])
            [Done (Throw "Transient error"); Done (Normal 5)]).
Proof. reflexivity. Qed.

(** The same calls on the accessor of the route: there is no second promise
    to settle, the second call is stuck with the first rejection. *)
Example dbConnect_does_not_retry :
  run dbConnect
      [Call; Settle 0 (Throw "Transient error"); Resume 0; Call; Settle 1 (Normal 5)]
      (boot (Some "mongodb://localhost:27017/test-db"))
  = None.
Proof. reflexivity. Qed.

End FailedAttempt.

(** C1, on the code: one call, the attempt is rejected with [e], the caller
    gets [e]; the rejected promise stays in [cache.promise], so the next call
    does not invoke [mongoose.connect] again: it awaits the same rejected
    promise and fails with [e] as well. *)
Theorem dbConnect_failure_stays_cached (e : Error) :
  Conn.run Conn.dbConnect [Conn.Call; Conn.Settle 0 (Throw e); Conn.Resume 0; Conn.Call; Conn.Resume 1]
           (Conn.boot (Some "mongodb://localhost:27017/test-db"))
  = Some (Conn.mkSys
            (Conn.mkWorld (Some "mongodb://localhost:27017/test-db")
                          (Conn.mkCache None (Some 0))
                          [Conn.Rejected e])
            [Conn.Done (Throw e); Conn.Done (Throw e)]).
Proof. reflexivity. Qed.

Section Unconfigured.
Import Conn.

Lemma step_never_connects uri e s s' :
  configured uri = false ->
  never_connects uri s -> step dbConnect e s = Some s' -> never_connects uri s'.
Proof.
  intros Hu [Hw Hc]. destruct e as [|p r|i]; simpl.
  - unfold dbConnect_start. rewrite Hw. simpl. rewrite Hu. simpl.
    intros [= <-]. split; [done|]. simpl.
    apply Forall_app. split; [done|]. by constructor.
  - rewrite Hw. simpl. done.
  - destruct (calls s !! i) as [c|] eqn:Hi; [|done].
    rewrite Forall_lookup in Hc. rewrite (Hc _ _ Hi). done.
Qed.

Lemma run_unconfigured_calls n s :
  configured (MONGODB_URI (world s)) = false ->
  run dbConnect (replicate n Call) s
  = Some (mkSys (world s) (calls s ++ replicate n (Done (Throw not_configured)))).
Proof.
  revert s. induction n as [|n IH]; intros s Hu; simpl.
  - rewrite app_nil_r. by destruct s.
  - unfold dbConnect_start. rewrite Hu. simpl.
    rewrite IH by done. simpl. by rewrite <- app_assoc.
Qed.

End Unconfigured.

(** C9. With the connection string absent when the module is loaded, every
    call to [dbConnect] throws the same configuration error and leaves the
    module state untouched; [n] calls in a row all settle with that error; and
    in every state any run reaches, [mongoose.connect] was never invoked, the
    cache is empty, the URI is still absent and every call made has thrown
    that error. *)
Theorem dbConnect_unconfigured (uri : option string) :
  Conn.configured uri = false ->
  (forall w, Conn.MONGODB_URI w = uri ->
             Conn.dbConnect_start w = (Conn.Done (Throw Conn.not_configured), w))
  /\ (forall n,
        Conn.run Conn.dbConnect (replicate n Conn.Call) (Conn.boot uri)
        = Some (Conn.mkSys (Conn.world (Conn.boot uri))
                           (replicate n (Conn.Done (Throw Conn.not_configured)))))
  /\ (forall tr s,
        Conn.run Conn.dbConnect tr (Conn.boot uri) = Some s ->
        Conn.world s = Conn.mkWorld uri (Conn.mkCache None None) []
        /\ Conn.connect_calls (Conn.world s) = 0
        /\ Forall (fun c => c = Conn.Done (Throw Conn.not_configured)) (Conn.calls s)).
Proof.
  intros Hu. repeat split.
  - intros w Hw. unfold Conn.dbConnect_start. by rewrite Hw, Hu.
  - intros n. by rewrite run_unconfigured_calls.
  - eapply (run_preserves Conn.dbConnect (Conn.never_connects uri)); [| |eassumption].
    + intros; by eapply step_never_connects.
    + by split.
  - assert (Conn.never_connects uri s) as [Hw _]; [|by rewrite Hw].
    eapply (run_preserves Conn.dbConnect (Conn.never_connects uri)); [| |eassumption].
    + intros; by eapply step_never_connects.
    + by split.
  - eapply (run_preserves Conn.dbConnect (Conn.never_connects uri)); [| |eassumption].
    + intros; by eapply step_never_connects.
    + by split.
Qed.

Lemma dbConnect_unconfigured_witness :
  Conn.run Conn.dbConnect (replicate 2 Conn.Call) (Conn.boot None)
  = Some (Conn.mkSys (Conn.world (Conn.boot None))
                     (replicate 2 (Conn.Done (Throw Conn.not_configured)))).
Proof.
  destruct (dbConnect_unconfigured None) as (_ & H & _); [reflexivity|].
  apply (H 2).
Defined.

(** ** The route handler *)

Section RouteFacts.
Import JS Route.

Lemma isValidSlug_truthy v : isValidSlug v = true -> truthy v = true.
Proof.
  destruct v as [| | | |s|]; try done. simpl.
  destruct s; [done|]. done.
Qed.

(** The handler, once the slug has passed both checks. *)
Lemma GET_try_valid context env :
  isValidSlug (get_slug context) = true ->
  GET_try context env
  = (let* _ := dbConnect env in
     let* doc := findOne env (get_slug context) in
     match doc with
     | None => Normal (mkResponse 404 [] (error_body "NOT_FOUND" "Event not found."))
     | Some d =>
         Normal (mkResponse 200 [cache_control]
                   (JObject [("success", JBool true); ("data", event_public d)]))
     end).
Proof.
  intros Hv. unfold GET_try.
  by rewrite (isValidSlug_truthy _ Hv), Hv.
Qed.

(** Rule 1: no slug parameter. *)
Lemma GET_missing_slug context env :
  get_slug context = VUndefined ->
  GET context env
  = (Normal (mkResponse 400 [] (error_body "MISSING_SLUG" "Parameter 'slug' is required.")), []).
Proof. intros H. unfold GET, GET_try. by rewrite H. Qed.

(** Rule 2, for the slugs that are not empty. *)
Lemma GET_invalid_slug s env :
  s <> "" ->
  isValidSlug (VStr s) = false ->
  GET (request s) env
  = (Normal (mkResponse 400 []
               (error_body "INVALID_SLUG"
                  "Parameter 'slug' must be a lowercase slug (a-z, 0-9, -).")), []).
Proof.
  intros Hs Hv. unfold GET, GET_try. simpl get_slug. rewrite Hv.
  simpl. destruct s; [done|]. done.
Qed.

(** Rule 4: a well-formed slug, a connection, and no Event. *)
Lemma GET_not_found context env h :
  isValidSlug (get_slug context) = true ->
  dbConnect env = Normal h ->
  findOne env (get_slug context) = Normal None ->
  GET context env
  = (Normal (mkResponse 404 [] (error_body "NOT_FOUND" "Event not found.")), []).
Proof.
  intros Hv Hc Hq. unfold GET. rewrite GET_try_valid by done.
  by rewrite Hc; simpl; rewrite Hq.
Qed.

Lemma GET_fails context env e :
  isValidSlug (get_slug context) = true ->
  fails_with env (get_slug context) e ->
  GET context env
  = (Normal internal_error, [mkLog "[GET] /api/events/[slug] error" e]).
Proof.
  intros Hv Hf. unfold GET. rewrite GET_try_valid by done.
  destruct Hf as [Hc|(h & Hc & Hq)].
  - by rewrite Hc.
  - by rewrite Hc; simpl; rewrite Hq.
Qed.

Lemma field_insert_ne (doc : Doc) k k' v :
  k <> k' -> field (<[k := v]> doc) k' = field doc k'.
Proof. intros Hne. unfold field. by rewrite lookup_insert_ne. Qed.

(** The requests of the route's test suite. *)
Example GET_uppercase_slug env :
  fst (GET (request "INVALID_SLUG") env)
  = Normal (mkResponse 400 []
              (error_body "INVALID_SLUG"
                 "Parameter 'slug' must be a lowercase slug (a-z, 0-9, -).")).
Proof. reflexivity. Qed.

Example isValidSlug_samples :
  map (fun s => isValidSlug (VStr s))
      ["valid-slug-123"; "Invalid-Slug"; "slug@special"; "invalid slug"; "";
       text (replicate 100 "a"%char); text (replicate 101 "a"%char)]
  = [true; false; false; false; false; true; false].
Proof. reflexivity. Qed.

Example GET_null_slug env :
  fst (GET (Some (mkContext (Some (mkParams VNull)))) env)
  = Normal (mkResponse 400 [] (error_body "MISSING_SLUG" "Parameter 'slug' is required.")).
Proof. reflexivity. Qed.

Example GET_without_uri :
  GET (request "valid-slug") (mkEnv (Throw Conn.not_configured) (fun _ => Normal None))
  = (Normal internal_error,
     [mkLog "[GET] /api/events/[slug] error"
            "MONGODB_URI is not configured in environment variables"]).
Proof. reflexivity. Qed.

End RouteFacts.

(** C2, on the code: the empty string does not match [^[a-z0-9-]{1,100}$],
    and a request whose slug is the empty string is answered by rule 1,
    [400 MISSING_SLUG], whatever the store does. *)
Theorem GET_empty_slug_is_missing (env : Route.Env) :
  Route.isValidSlug (JS.VStr "") = false
  /\ Route.GET (Route.request "") env
     = (Normal (Route.mkResponse 400 []
                  (Route.error_body "MISSING_SLUG" "Parameter 'slug' is required.")), []).
Proof. by split. Qed.

(** C3. A well-formed slug for which the store returns a document is answered
    with status 200, the header [Cache-Control: public, s-maxage=60,
    stale-while-revalidate=300], and a body whose [data] holds the six fields
    image, title, slug, location, date, time, each the [String(...)] of the
    document's field, and nothing else: no other field of the document has any
    influence on the answer. *)
Theorem GET_found context env h doc :
  Route.isValidSlug (Route.get_slug context) = true ->
  Route.dbConnect env = Normal h ->
  Route.findOne env (Route.get_slug context) = Normal (Some doc) ->
  Route.GET context env
  = (Normal
       (Route.mkResponse 200
          [("Cache-Control", "public, s-maxage=60, stale-while-revalidate=300")]
          (Route.JObject
             [("success", Route.JBool true);
              ("data",
               Route.JObject
                 [("image", Route.JString (JS.String_ (Route.field doc "image")));
                  ("title", Route.JString (JS.String_ (Route.field doc "title")));
                  ("slug", Route.JString (JS.String_ (Route.field doc "slug")));
                  ("location", Route.JString (JS.String_ (Route.field doc "location")));
                  ("date", Route.JString (JS.String_ (Route.field doc "date")));
                  ("time", Route.JString (JS.String_ (Route.field doc "time")))])])),
     [])
  /\ (forall k v, k ∉ Route.public_fields ->
        Route.event_public (<[k := v]> doc) = Route.event_public doc).
Proof.
  intros Hv Hc Hq. split.
  - unfold Route.GET. rewrite GET_try_valid by done.
    by rewrite Hc; simpl; rewrite Hq.
  - intros k v Hk. unfold Route.event_public.
    rewrite !field_insert_ne; [done|..]; intros ->; apply Hk;
      unfold Route.public_fields; set_solver.
Qed.

Lemma GET_found_witness :
  Route.GET (Route.request "react-summit-us-2025") Route.sample_env
  = (Normal
       (Route.mkResponse 200
          [("Cache-Control", "public, s-maxage=60, stale-while-revalidate=300")]
          (Route.JObject
             [("success", Route.JBool true);
              ("data",
               Route.JObject
                 [("image", Route.JString "/images/event1.png");
                  ("title", Route.JString "React Summit US 2025");
                  ("slug", Route.JString "react-summit-us-2025");
                  ("location", Route.JString "San Francisco, CA, USA");
                  ("date", Route.JString "2025-11-07");
                  ("time", Route.JString "undefined")])])),
     []).
Proof.
  apply (GET_found (Route.request "react-summit-us-2025") Route.sample_env 0 Route.sample_doc);
    reflexivity.
Defined.

(** C8. When the connection, or the query after it, throws, the handler
    answers 500 with code INTERNAL_SERVER_ERROR and one fixed body; the thrown
    error goes to [console.error] and nowhere else.  Two runs of one request
    that differ in the error thrown (and in where it is thrown) give the same
    response. *)
Theorem GET_internal_error_fixed context env1 env2 e1 e2 :
  Route.isValidSlug (Route.get_slug context) = true ->
  Route.fails_with env1 (Route.get_slug context) e1 ->
  Route.fails_with env2 (Route.get_slug context) e2 ->
  Route.GET context env1
  = (Normal
       (Route.mkResponse 500 []
          (Route.JObject
             [("success", Route.JBool false);
              ("error",
               Route.JObject
                 [("code", Route.JString "INTERNAL_SERVER_ERROR");
                  ("message", Route.JString "An unexpected error occurred.")])])),
     [Route.mkLog "[GET] /api/events/[slug] error" e1])
  /\ fst (Route.GET context env1) = fst (Route.GET context env2).
Proof.
  intros Hv H1 H2.
  rewrite (GET_fails _ _ e1), (GET_fails _ _ e2) by done.
  by split.
Qed.

Lemma GET_internal_error_fixed_witness :
  fst (Route.GET (Route.request "valid-slug")
         (Route.mkEnv (Throw "Database error") (fun _ => Normal None)))
  = fst (Route.GET (Route.request "valid-slug")
           (Route.mkEnv (Normal 0) (fun _ => Throw "E11000 duplicate key"))).
Proof.
  apply (GET_internal_error_fixed (Route.request "valid-slug") _ _
           "Database error" "E11000 duplicate key").
  - reflexivity.
  - left. reflexivity.
  - right. exists 0. split; reflexivity.
Defined.

(** C10. The handler never lets an exception out: whatever the request and
    however the connection and the query complete, it returns a response
    whose status is 200, 400, 404 or 500 and whose body is
    [{success: true, data}] or [{success: false, error: {code, message}}]. *)
Theorem GET_total context env :
  exists r log,
    Route.GET context env = (Normal r, log)
    /\ Route.status r ∈ [200; 400; 404; 500]%Z
    /\ ((exists data,
           Route.body r = Route.JObject [("success", Route.JBool true); ("data", data)])
        \/ (exists code message,
              Route.body r
              = Route.JObject
                  [("success", Route.JBool false);
                   ("error",
                    Route.JObject
                      [("code", Route.JString code);
                       ("message", Route.JString message)])])).
Proof.
  unfold Route.GET, Route.GET_try.
  destruct (negb (JS.truthy _)).
  { do 2 eexists. split; [reflexivity|]. split; [set_solver|]. right. by do 2 eexists. }
  destruct (negb (Route.isValidSlug _)).
  { do 2 eexists. split; [reflexivity|]. split; [set_solver|]. right. by do 2 eexists. }
  destruct (Route.dbConnect env) as [h|e]; simpl.
  2: { do 2 eexists. split; [reflexivity|]. split; [set_solver|]. right. by do 2 eexists. }
  destruct (Route.findOne env _) as [[d|]|e]; simpl.
  - do 2 eexists. split; [reflexivity|]. split; [set_solver|]. left. by eexists.
  - do 2 eexists. split; [reflexivity|]. split; [set_solver|]. right. by do 2 eexists.
  - do 2 eexists. split; [reflexivity|]. split; [set_solver|]. right. by do 2 eexists.
Qed.

(** ** The slug derivation *)

Section SlugFacts.
Import JS Slug.
Local Open Scope list_scope.

(** *** Facts on single characters, by enumeration of the 256 of them *)

Ltac by_cases_on c :=
  destruct c as [[] [] [] [] [] [] [] []]; vm_compute; congruence.

Lemma alnum_lower_fixed c : alnum c = true -> lower_char c = c.
Proof. by_cases_on c. Qed.

Lemma alnum_not_hyphen c : alnum c = true -> is_hyphen c = false.
Proof. by_cases_on c. Qed.

Lemma is_hyphen_eq c : is_hyphen c = true -> c = hyphen.
Proof. by_cases_on c. Qed.

Lemma space_becomes_hyphen c : is_space c = true -> alnum (lower_char c) = false.
Proof. by_cases_on c. Qed.

Lemma lower_keeps_space c : is_space (lower_char c) = is_space c.
Proof. by_cases_on c. Qed.

(** *** Dropping at both ends *)

Lemma drop_trailing_cons p c l :
  drop_trailing p (c :: l)
  = match drop_trailing p l with
    | [] => if p c then [] else [c]
    | r => c :: r
    end.
Proof. reflexivity. Qed.

Lemma drop_both_comm p l :
  drop_trailing p (drop_leading p l) = drop_leading p (drop_trailing p l).
Proof.
  induction l as [|c r IH]; [done|].
  rewrite drop_trailing_cons. simpl drop_leading at 1.
  destruct (p c) eqn:Hc.
  - rewrite IH. destruct (drop_trailing p r); simpl; by rewrite ?Hc.
  - rewrite drop_trailing_cons.
    destruct (drop_trailing p r); simpl; by rewrite Hc.
Qed.

Lemma drop_trailing_idem p l :
  drop_trailing p (drop_trailing p l) = drop_trailing p l.
Proof.
  induction l as [|c r IH]; [done|].
  rewrite drop_trailing_cons.
  destruct (drop_trailing p r) as [|x xs] eqn:Hr.
  - destruct (p c) eqn:Hc; [done|]. simpl. by rewrite Hc.
  - rewrite drop_trailing_cons, IH. done.
Qed.

(** *** The slug, on lists of characters *)

Lemma chars_text l : chars (text l) = l.
Proof. apply list_ascii_of_string_of_list_ascii. Qed.

Lemma text_chars s : text (chars s) = s.
Proof. apply string_of_list_ascii_of_string. Qed.

Lemma slugify_chars T : slugify T = text (slug_list (chars T)).
Proof.
  unfold slugify, strip_hyphens, replace_runs, toLowerCase, slug_list.
  by rewrite !chars_text.
Qed.

(** A word stays as it is, and a gap between words becomes one hyphen. *)
Lemma hyphenate_word b c w rest :
  forallb alnum (c :: w) = true ->
  hyphenate b ((c :: w) ++ rest) = (c :: w) ++ hyphenate false rest.
Proof.
  revert b c. induction w as [|d w IH]; intros b c; simpl.
  - rewrite andb_true_r. by intros ->.
  - intros [Hc Hw]%andb_true_iff. rewrite Hc. f_equal. by apply (IH false d).
Qed.

Lemma hyphenate_gap_inside g rest :
  forallb (fun c => negb (alnum c)) g = true ->
  hyphenate true (g ++ rest) = hyphenate true rest.
Proof.
  induction g as [|c g IH]; simpl; [done|].
  intros [Hc Hg]%andb_true_iff. apply negb_true_iff in Hc. rewrite Hc. by apply IH.
Qed.

Lemma hyphenate_gap c g rest :
  forallb (fun c => negb (alnum c)) (c :: g) = true ->
  hyphenate false ((c :: g) ++ rest) = hyphen :: hyphenate true rest.
Proof.
  simpl. intros [Hc Hg]%andb_true_iff. apply negb_true_iff in Hc. rewrite Hc.
  f_equal. by apply hyphenate_gap_inside.
Qed.

Lemma hyphenate_flag l :
  drop_leading is_hyphen (hyphenate true l) = drop_leading is_hyphen (hyphenate false l).
Proof. destruct l as [|c r]; simpl; [done|]. by destruct (alnum c). Qed.

(** *** Characters that become hyphens, at either end, do not show *)

Lemma slug_list_drop_leading p l :
  (forall c, p c = true -> alnum (lower_char c) = false) ->
  slug_list (drop_leading p l) = slug_list l.
Proof.
  intros Hp. induction l as [|c r IH]; [done|]. simpl.
  destruct (p c) eqn:Hc; [|done].
  rewrite IH. unfold slug_list. simpl. rewrite (Hp _ Hc). simpl.
  by rewrite hyphenate_flag.
Qed.

Lemma hyphenate_cons_congr x l1 l2 :
  (forall b, drop_trailing is_hyphen (hyphenate b l1) = drop_trailing is_hyphen (hyphenate b l2)) ->
  forall b,
    drop_trailing is_hyphen (hyphenate b (x :: l1))
    = drop_trailing is_hyphen (hyphenate b (x :: l2)).
Proof.
  intros H b. simpl. destruct (alnum x); [|destruct b].
  - by rewrite !drop_trailing_cons, H.
  - apply H.
  - by rewrite !drop_trailing_cons, H.
Qed.

Lemma hyphenate_drop_trailing p l :
  (forall c, p c = true -> alnum (lower_char c) = false) ->
  forall b,
    drop_trailing is_hyphen (hyphenate b (map lower_char (drop_trailing p l)))
    = drop_trailing is_hyphen (hyphenate b (map lower_char l)).
Proof.
  intros Hp. induction l as [|c r IH]; [done|].
  rewrite drop_trailing_cons.
  destruct (drop_trailing p r) as [|x xs] eqn:Hr.
  - destruct (p c) eqn:Hc.
    + intros b. simpl. rewrite (Hp _ Hc).
      destruct b; [apply IH|]. rewrite drop_trailing_cons, <- IH. done.
    + simpl map. by apply hyphenate_cons_congr.
  - simpl map. simpl map in IH. by apply hyphenate_cons_congr.
Qed.

Lemma slug_list_drop_trailing p l :
  (forall c, p c = true -> alnum (lower_char c) = false) ->
  slug_list (drop_trailing p l) = slug_list l.
Proof.
  intros Hp. unfold slug_list.
  rewrite !drop_both_comm. f_equal. by apply hyphenate_drop_trailing.
Qed.

Lemma slugify_trim T : slugify (trim T) = slugify T.
Proof.
  rewrite !slugify_chars. unfold trim. rewrite chars_text. f_equal.
  rewrite slug_list_drop_trailing by apply space_becomes_hyphen.
  by apply slug_list_drop_leading, space_becomes_hyphen.
Qed.

(** *** The shape of a slug *)

Lemma hyphenated_hyphenate b l : hyphenated b (hyphenate b l) = true.
Proof.
  revert b. induction l as [|c r IH]; intros b; simpl; [done|].
  destruct (alnum c) eqn:Hc; simpl.
  - rewrite Hc. apply IH.
  - destruct b; [apply IH|]. simpl. apply IH.
Qed.

Lemma hyphenated_weaken b l : hyphenated b l = true -> hyphenated false l = true.
Proof.
  destruct l as [|c r]; simpl; [done|]. destruct (alnum c); [done|].
  intros [[-> _]%andb_true_iff ->]%andb_true_iff. done.
Qed.

Lemma hyphenate_hyphenated b l : hyphenated b l = true -> hyphenate b l = l.
Proof.
  revert b. induction l as [|c r IH]; intros b; simpl; [done|].
  destruct (alnum c).
  - intros H. by rewrite IH.
  - intros [[Hc Hb]%andb_true_iff Hr]%andb_true_iff.
    apply negb_true_iff in Hb. subst b. by rewrite IH, (is_hyphen_eq c).
Qed.

Lemma lower_hyphenated b l : hyphenated b l = true -> map lower_char l = l.
Proof.
  revert b. induction l as [|c r IH]; intros b; simpl; [done|].
  destruct (alnum c) eqn:Hc.
  - intros H. by rewrite (IH false), alnum_lower_fixed.
  - intros [[Hh _]%andb_true_iff Hr]%andb_true_iff.
    rewrite (IH true) by done. by rewrite (is_hyphen_eq c).
Qed.

Lemma drop_leading_hyphenated l :
  hyphenated true l = true -> drop_leading is_hyphen l = l.
Proof.
  destruct l as [|c r]; simpl; [done|].
  destruct (alnum c) eqn:Hc.
  - by rewrite alnum_not_hyphen.
  - by rewrite andb_false_r.
Qed.

Lemma hyphenated_drop_leading l :
  hyphenated false l = true -> hyphenated true (drop_leading is_hyphen l) = true.
Proof.
  destruct l as [|c r]; simpl; [done|].
  destruct (alnum c) eqn:Hc.
  - rewrite alnum_not_hyphen by done. simpl. by rewrite Hc.
  - intros [[-> _]%andb_true_iff Hr]%andb_true_iff.
    by rewrite drop_leading_hyphenated.
Qed.

Lemma hyphenated_drop_trailing b l :
  hyphenated b l = true -> hyphenated b (drop_trailing is_hyphen l) = true.
Proof.
  revert b. induction l as [|c r IH]; intros b; [done|].
  rewrite drop_trailing_cons. simpl.
  destruct (alnum c) eqn:Hc.
  - intros Hr. apply IH in Hr.
    destruct (drop_trailing is_hyphen r) as [|x xs].
    + rewrite alnum_not_hyphen by done. simpl. by rewrite Hc.
    + simpl. simpl in Hr. by rewrite Hc.
  - intros [[Hh Hb]%andb_true_iff Hr]%andb_true_iff. apply IH in Hr.
    destruct (drop_trailing is_hyphen r) as [|x xs].
    + by rewrite Hh.
    + simpl. simpl in Hr. by rewrite Hc, Hh, Hb.
Qed.

Lemma slug_list_hyphenated l : hyphenated true (slug_list l) = true.
Proof.
  unfold slug_list.
  apply hyphenated_drop_trailing, hyphenated_drop_leading, hyphenated_hyphenate.
Qed.

Lemma slug_list_idempotent l : slug_list (slug_list l) = slug_list l.
Proof.
  pose proof (slug_list_hyphenated l) as H.
  unfold slug_list at 1.
  rewrite (lower_hyphenated true) by done.
  rewrite hyphenate_hyphenated by by eapply hyphenated_weaken.
  rewrite drop_leading_hyphenated by done.
  unfold slug_list. apply drop_trailing_idem.
Qed.

(** The titles of the Event model's test suite. *)
Example slug_samples :
  map (fun t => slug (create t))
      ["Test Conference 2025"; "React Summit 2025"; "UPPERCASE TITLE";
       "Multi Word Title"; "---Event---"; "Multiple   Spaces   Event";
       "  Trimmed Title  "]%string
  = ["test-conference-2025"; "react-summit-2025"; "uppercase-title";
     "multi-word-title"; "event"; "multiple-spaces-event"; "trimmed-title"]%string.
Proof. reflexivity. Qed.

End SlugFacts.

(** C5. The slug stored when an Event is created with title [T] is: [T] in
    lower case, every maximal run of characters outside [[a-z0-9]] replaced by
    one hyphen, leading and trailing hyphens removed.  The title
    "Event: 2025 @ #Tech!" gives the slug "event-2025-tech". *)
Theorem slug_at_creation (T : string) :
  Slug.slug (Slug.create T)
  = Slug.strip_hyphens (Slug.replace_runs (JS.toLowerCase T))
  /\ Slug.slug (Slug.create "Event: 2025 @ #Tech!") = "event-2025-tech".
Proof.
  split; [|reflexivity].
  unfold Slug.create. simpl. apply slugify_trim.
Qed.

(** C6. The slug derivation is idempotent. *)
Theorem slugify_idempotent (T : string) :
  Slug.slugify (Slug.slugify T) = Slug.slugify T.
Proof.
  rewrite !slugify_chars, chars_text. f_equal. apply slug_list_idempotent.
Qed.

(** ** Bookings *)

Section BookingFacts.
Import BookingModel.

Lemma eventId_validator_spec st oid :
  eventId_validator st oid = true <-> is_Some (findById st oid).
Proof. unfold eventId_validator. apply bool_decide_eq_true. Qed.

(** The validator and the pre-save hook reach the same verdict. *)
Lemma pre_save_agrees st oid :
  pre_save st true true oid = None <-> eventId_validator st oid = true.
Proof.
  rewrite eventId_validator_spec. unfold pre_save. simpl.
  destruct (findById st oid) as [ev|]; split;
    first [done | by eexists | by intros [? ?]].
Qed.

(** A creation that fails writes nothing. *)
Lemma create_failed_writes_nothing fields fresh now st err st' :
  create fields fresh now st = (inl err, st') -> st' = st.
Proof.
  unfold create.
  destruct (check_eventId st _) as [e1|oid], (check_email _) as [e2|mail];
    try by intros [= _ <-].
  destruct (pre_save st true true oid); by intros [=]; subst.
Qed.

(** A creation for an existing Event and a valid email appends the booking. *)
Lemma create_ok oid raw fresh now st :
  is_Some (findById st oid) ->
  check_email (Some raw) = inr (set_email raw) ->
  create (mkFields (Id oid) (Some raw)) fresh now st
  = (inr (mkBooking fresh oid (set_email raw) now now),
     mkStore (events st) (bookings st ++ [mkBooking fresh oid (set_email raw) now now])%list).
Proof.
  intros Hev Hmail. unfold create. simpl given_eventId. simpl given_email.
  rewrite Hmail. unfold check_eventId.
  rewrite (proj2 (eventId_validator_spec st oid) Hev).
  by rewrite (proj2 (pre_save_agrees st oid) (proj2 (eventId_validator_spec st oid) Hev)).
Qed.

(** The emails of the spec's examples. *)
Example email_samples :
  map emailRegex ["a@b.co"; "test user@example.com"; "a@b"; "ab.co"; "a@b."; "a@@b.co"]
  = [true; false; false; false; false; false]
  /\ check_email (Some "  A@B.CO  ") = inr "a@b.co"
  /\ check_email (Some "") = inl (RequiredError "Email is required").
Proof. by repeat split. Qed.

End BookingFacts.

(** C7. A Booking creation whose [eventId] refers to no existing Event fails
    with a validation error that holds a reference error for the path
    [eventId], and the store is left as it was: no Booking is written. *)
Theorem create_dangling_rejected fields fresh now st :
  BookingModel.dangling st (BookingModel.given_eventId fields) ->
  exists errors e,
    BookingModel.create fields fresh now st
    = (inl (BookingModel.ValidationError errors), st)
    /\ ("eventId", e) ∈ errors
    /\ BookingModel.reference_error e.
Proof.
  unfold BookingModel.dangling, BookingModel.create, BookingModel.check_eventId.
  destruct (BookingModel.given_eventId fields) as [|raw|oid]; [done| |].
  - intros _. do 2 eexists. split; [reflexivity|]. split; [|by left].
    simpl. set_solver.
  - intros Hno. unfold BookingModel.eventId_validator. rewrite Hno.
    rewrite bool_decide_eq_false_2 by (by intros [? ?]).
    do 2 eexists. split; [reflexivity|]. split; [|by right].
    simpl. set_solver.
Qed.

Lemma create_dangling_rejected_witness :
  exists errors e,
    BookingModel.create
      (BookingModel.mkFields (BookingModel.Id 42%N) (Some "test@example.com"))
      1%N 1764576000000%Z (BookingModel.mkStore {[ 7%N := ∅ ]} [])
    = (inl (BookingModel.ValidationError errors),
       BookingModel.mkStore {[ 7%N := ∅ ]} [])
    /\ ("eventId", e) ∈ errors
    /\ BookingModel.reference_error e.
Proof.
  apply (create_dangling_rejected
           (BookingModel.mkFields (BookingModel.Id 42%N) (Some "test@example.com"))).
  reflexivity.
Defined.

(** * Further properties of the code *)

(** ** The route handler: validation and the decision table *)

Section RouteMore.
Import JS Route.
Local Open Scope list_scope.

Lemma slug_char_alphabet c :
  slug_char c = bool_decide (c ∈ chars slug_alphabet).
Proof. destruct c as [[] [] [] [] [] [] [] []]; vm_compute; reflexivity. Qed.

Lemma length_chars s : length (chars s) = String.length s.
Proof. induction s as [|c s IH]; simpl; [done|]. by rewrite IH. Qed.

(** An invalid slug is answered before the store is looked at. *)
Lemma GET_try_invalid context env :
  isValidSlug (get_slug context) = false ->
  exists code message,
    GET_try context env = Normal (mkResponse 400 [] (error_body code message)).
Proof.
  intros Hv. unfold GET_try. rewrite Hv.
  destruct (negb (truthy _)); simpl; by do 2 eexists.
Qed.

End RouteMore.

(** X1. [isValidSlug] accepts exactly the strings of 1 to 100 characters
    whose characters all belong to "abcdefghijklmnopqrstuvwxyz0123456789-";
    values that are not strings are never accepted. *)
Theorem isValidSlug_spec (v : JS.value) :
  Route.isValidSlug v = true
  <-> exists s,
        v = JS.VStr s
        /\ 1 <= String.length s <= 100
        /\ Forall (fun c => c ∈ JS.chars Route.slug_alphabet) (JS.chars s).
Proof.
  split.
  - destruct v as [| | | |s|]; try done. unfold Route.isValidSlug.
    intros [[Hlo Hhi]%andb_true_iff Hall]%andb_true_iff.
    exists s. split; [done|].
    apply Nat.leb_le in Hlo. apply Nat.leb_le in Hhi. split; [lia|].
    apply Forall_forall. intros c Hc.
    rewrite forallb_forall in Hall.
    specialize (Hall c). rewrite slug_char_alphabet in Hall.
    eapply bool_decide_eq_true_1. apply Hall. by apply list_elem_of_In.
  - intros (s & -> & [Hlo Hhi] & Hall). unfold Route.isValidSlug.
    apply andb_true_iff. split; [apply andb_true_iff; split|].
    + by apply Nat.leb_le.
    + by apply Nat.leb_le.
    + apply forallb_forall. intros c Hc.
      rewrite slug_char_alphabet. apply bool_decide_eq_true_2.
      rewrite Forall_forall in Hall. apply Hall. by apply list_elem_of_In.
Qed.

(** X2. A request whose slug is missing or ill-formed is answered 400 without
    the store: the answer is the same whatever the connection and the query
    would do, and nothing is logged. *)
Theorem GET_rejects_before_store context env1 env2 :
  Route.isValidSlug (Route.get_slug context) = false ->
  Route.GET context env1 = Route.GET context env2
  /\ exists r, Route.GET context env1 = (Normal r, []) /\ Route.status r = 400%Z.
Proof.
  intros Hv.
  destruct (GET_try_invalid context env1 Hv) as (c1 & m1 & H1).
  assert (Route.GET_try context env2 = Route.GET_try context env1) as H2.
  { unfold Route.GET_try. rewrite Hv. by destruct (negb (JS.truthy _)). }
  unfold Route.GET. rewrite H2, H1. split; [done|]. by eexists.
Qed.

Lemma GET_rejects_before_store_witness :
  Route.GET (Route.request "Invalid-Slug") Route.sample_env
  = Route.GET (Route.request "Invalid-Slug")
      (Route.mkEnv (Throw "Database error") (fun _ => Throw "unreachable")).
Proof.
  apply (GET_rejects_before_store (Route.request "Invalid-Slug")). reflexivity.
Defined.

(** X3. The decision table of the handler, read both ways: the status is 400
    exactly for the slugs [isValidSlug] refuses, 500 exactly when the slug is
    valid and the connection or the query throws, 404 exactly when both
    succeed and no document is found, 200 exactly when a document is found. *)
Theorem GET_status_table context env r log :
  Route.GET context env = (Normal r, log) ->
  (Route.status r = 400%Z <-> Route.isValidSlug (Route.get_slug context) = false)
  /\ (Route.status r = 500%Z
      <-> Route.isValidSlug (Route.get_slug context) = true
          /\ exists e, Route.fails_with env (Route.get_slug context) e)
  /\ (Route.status r = 404%Z
      <-> Route.isValidSlug (Route.get_slug context) = true
          /\ (exists h, Route.dbConnect env = Normal h)
          /\ Route.findOne env (Route.get_slug context) = Normal None)
  /\ (Route.status r = 200%Z
      <-> Route.isValidSlug (Route.get_slug context) = true
          /\ (exists h, Route.dbConnect env = Normal h)
          /\ exists doc, Route.findOne env (Route.get_slug context) = Normal (Some doc)).
Proof.
  destruct (Route.isValidSlug (Route.get_slug context)) eqn:Hv.
  - unfold Route.GET. rewrite GET_try_valid by done.
    unfold Route.fails_with.
    destruct (Route.dbConnect env) as [h|e]; simpl.
    + destruct (Route.findOne env _) as [[d|]|e]; simpl; intros [= <- <-]; simpl;
        repeat split; try done; try (by intros (_ & _ & [? ?]));
        try (by intros (_ & [? [?|(? & ? & ?)]])); try (by intros (_ & _ & ?));
        eauto 7.
    + intros [= <- <-]; simpl.
      repeat split; try done; try (by intros (_ & [? ?] & _)); eauto 7.
  - intros Hget.
    destruct (GET_try_invalid context env Hv) as (c & m & Htry).
    unfold Route.GET in Hget. rewrite Htry in Hget. injection Hget as <- <-. simpl.
    repeat split; try done; by intros [? _].
Qed.

Lemma GET_status_table_witness :
  Route.status
    (Route.mkResponse 404 [] (Route.error_body "NOT_FOUND" "Event not found.")) = 404%Z
  <-> Route.isValidSlug (Route.get_slug (Route.request "non-existent")) = true
      /\ (exists h, Route.dbConnect (Route.mkEnv (Normal 0) (fun _ => Normal None)) = Normal h)
      /\ Route.findOne (Route.mkEnv (Normal 0) (fun _ => Normal None))
           (Route.get_slug (Route.request "non-existent")) = Normal None.
Proof.
  apply (GET_status_table (Route.request "non-existent")
           (Route.mkEnv (Normal 0) (fun _ => Normal None)) _ []).
  reflexivity.
Defined.



(** X5. In the public projection every one of the six fields is present and
    is a string: a stored string is passed on as it is, a field the document
    lacks becomes the text "undefined" and a [null] field the text "null";
    no other key can be read from the projection. *)
Theorem event_public_fields (doc : gmap string JS.value) (k : string) :
  (k ∈ Route.public_fields ->
   Route.json_get k (Route.event_public doc)
   = Some (Route.JString
             match doc !! k with
             | Some (JS.VStr s) => s
             | Some JS.VNull => "null"
             | Some v => JS.String_ v
             | None => "undefined"
             end))
  /\ (k ∉ Route.public_fields -> Route.json_get k (Route.event_public doc) = None).
Proof.
  split.
  - intros Hk.
    assert (forall name, Route.field doc name = default JS.VUndefined (doc !! name)) as Hf
        by done.
    unfold Route.public_fields in Hk.
    repeat (apply elem_of_cons in Hk as [->|Hk]);
      [..|by apply elem_of_nil in Hk];
      simpl; rewrite Hf; by destruct (doc !! _) as [[]|].
  - intros Hk. unfold Route.public_fields in Hk.
    unfold Route.json_get, Route.event_public. cbn -[String.eqb].
    repeat match goal with
           | |- context [String.eqb ?a k] =>
               destruct (String.eqb_spec a k) as [<-|_]; [exfalso; apply Hk; set_solver|]
           end.
    done.
Qed.

Lemma event_public_fields_witness :
  Route.json_get "time" (Route.event_public Route.sample_doc)
  = Some (Route.JString "undefined")
  /\ Route.json_get "_id" (Route.event_public Route.sample_doc) = None.
Proof.
  split.
  - apply (proj1 (event_public_fields Route.sample_doc "time")).
    apply (bool_decide_unpack _). vm_compute. exact I.
  - apply (proj2 (event_public_fields Route.sample_doc "_id")).
    apply (bool_decide_unpack _). vm_compute. exact I.
Defined.

(** ** The accessor of the route, beyond the first attempt *)

Section ConnMore.
Import Conn.
Local Open Scope list_scope.

Lemma singleton_lookup {A : Type} (l : list A) p x :
  length l = 1 -> l !! p = Some x -> p = 0 /\ l = [x].
Proof.
  destruct l as [|y [|z l]]; try done. destruct p as [|p]; [|done].
  by intros _ [= ->].
Qed.

Lemma settle_not_pending r : settle r <> Pending.
Proof. by destruct r. Qed.

Lemma settle_inj r1 r2 : settle r1 = settle r2 -> r1 = r2.
Proof. destruct r1, r2; simpl; congruence. Qed.

Lemma attempt_outcome_boot uri :
  configured uri = true -> attempt_outcome (boot uri).
Proof.
  intros Hu. split; [done|]. split; [by left|]. split; [done|].
  intros i r Hi. simpl in Hi. by rewrite lookup_nil in Hi.
Qed.

Lemma step_attempt_outcome e s s' :
  attempt_outcome s -> step dbConnect e s = Some s' -> attempt_outcome s'.
Proof.
  intros (Hu & Hone & Hconn & Hdone). destruct e as [|p r|i]; simpl.
  - unfold dbConnect_start. rewrite Hu. simpl.
    destruct (conn (cache (world s))) as [h|] eqn:Hc.
    { intros [= <-]. split; [done|]. split; [done|]. split; simpl.
      - by rewrite Hc.
      - intros i r [Hi|[_ Hi]]%lookup_app_Some; [eauto|].
        apply list_lookup_singleton_Some in Hi as [_ [= <-]]. by apply Hconn. }
    destruct (promise (cache (world s))) as [p|] eqn:Hp.
    { intros [= <-]. split; [done|]. split; [done|]. split; simpl.
      - by rewrite Hc.
      - intros i r [Hi|[_ Hi]]%lookup_app_Some; [eauto|].
        by apply list_lookup_singleton_Some in Hi as [_ ?]. }
    destruct Hone as [[_ Hh]|[Hp' _]]; [|congruence].
    intros [= <-]. split; [done|]. split; [right; simpl; by rewrite Hh|].
    split; simpl.
    + done.
    + intros i r [Hi|[_ Hi]]%lookup_app_Some.
      * apply Hdone in Hi. by rewrite Hh in Hi.
      * by apply list_lookup_singleton_Some in Hi as [_ ?].
  - destruct (heap (world s) !! p) as [[| |]|] eqn:Hp; try done.
    destruct Hone as [[_ Hh]|[Hpr Hlen]]; [by rewrite Hh in Hp|].
    destruct (singleton_lookup _ _ _ Hlen Hp) as [-> Hh].
    intros [= <-]. split; [done|]. split; [right; simpl; by rewrite Hh|].
    split; simpl; rewrite Hh; simpl.
    + intros h Hc. apply Hconn in Hc. congruence.
    + intros i r' Hi. apply Hdone in Hi. rewrite Hh in Hi.
      injection Hi as Hi. by destruct (settle_not_pending r').
  - destruct (calls s !! i) as [[|p]|] eqn:Hi; try done.
    unfold dbConnect_resume.
    destruct (heap (world s) !! p) as [[|h|e]|] eqn:Hp; try done.
    + destruct Hone as [[_ Hh]|[Hpr Hlen]]; [by rewrite Hh in Hp|].
      destruct (singleton_lookup _ _ _ Hlen Hp) as [-> Hh].
      intros [= <-]. split; [done|]. split; [by right|]. split; simpl.
      * by intros h' [= <-].
      * intros j r [(_ & [= <-] & _)|[_ Hj]]%list_lookup_insert_Some; eauto.
    + destruct Hone as [[_ Hh]|[Hpr Hlen]]; [by rewrite Hh in Hp|].
      destruct (singleton_lookup _ _ _ Hlen Hp) as [-> Hh].
      intros [= <-]. split; [done|]. split; [by right|]. split; simpl; [done|].
      intros j r [(_ & [= <-] & _)|[_ Hj]]%list_lookup_insert_Some; eauto.
Qed.

Lemma run_attempt_outcome tr s s' :
  attempt_outcome s -> run dbConnect tr s = Some s' -> attempt_outcome s'.
Proof. apply run_preserves. intros e s1 s2. apply step_attempt_outcome. Qed.

(** Once the attempt is settled and its outcome taken note of (a handle is
    cached, or the attempt was rejected), no step changes the module state. *)
Lemma step_world_frozen e s s' x :
  attempt_outcome s ->
  heap (world s) = [x] ->
  (forall h, x = Fulfilled h -> conn (cache (world s)) = Some h) ->
  x <> Pending ->
  step dbConnect e s = Some s' -> world s' = world s.
Proof.
  intros (Hu & Hone & Hconn & Hdone) Hx Hfull Hnp.
  destruct e as [|p r|i]; simpl.
  - unfold dbConnect_start. rewrite Hu. simpl.
    destruct (conn (cache (world s))) as [h|]; [by intros [= <-]|].
    destruct (promise (cache (world s))) as [p|] eqn:Hpr; [by intros [= <-]|].
    destruct Hone as [[_ Hh]|[Hp _]]; [by rewrite Hh in Hx | congruence].
  - rewrite Hx. destruct p as [|p]; simpl; [|done]. by destruct x.
  - destruct (calls s !! i) as [[|p]|]; try done.
    unfold dbConnect_resume. rewrite Hx.
    destruct p as [|p]; simpl; [|done].
    destruct x as [|h|e]; try done; intros [= <-]; [|done].
    rewrite <- Hx. specialize (Hfull h eq_refl).
    destruct (world s) as [u [c pr] hp]. simpl in *. by subst.
Qed.

End ConnMore.

(** X6. With the URI configured, every call of the route's [dbConnect] that
    has settled, in whatever order calls, settlement and continuations came,
    carries the outcome of the one connect attempt: all callers get the same
    handle, or all get the same error. *)
Theorem dbConnect_callers_share_outcome uri tr s i r :
  Conn.configured uri = true ->
  Conn.run Conn.dbConnect tr (Conn.boot uri) = Some s ->
  Conn.calls s !! i = Some (Conn.Done r) ->
  Conn.heap (Conn.world s) = [Conn.settle r]
  /\ forall j r', Conn.calls s !! j = Some (Conn.Done r') -> r' = r.
Proof.
  intros Hu Hrun Hi.
  destruct (run_attempt_outcome tr _ s (attempt_outcome_boot uri Hu) Hrun)
    as (_ & _ & _ & Hdone).
  split; [by eapply Hdone|].
  intros j r' Hj. apply Hdone in Hi. apply Hdone in Hj.
  rewrite Hi in Hj. injection Hj as Hj. by apply settle_inj.
Qed.

Lemma dbConnect_callers_share_outcome_witness :
  Conn.heap (Conn.world
     (Conn.mkSys
        (Conn.mkWorld (Some "mongodb://localhost:27017/test-db")
                      (Conn.mkCache (Some 5) (Some 0)) [Conn.Fulfilled 5])
        [Conn.Done (Normal 5); Conn.Awaiting 0; Conn.Done (Normal 5)]))
  = [Conn.settle (Normal 5)]
  /\ forall j r',
       [Conn.Done (Normal 5); Conn.Awaiting 0; Conn.Done (Normal 5)] !! j
       = Some (Conn.Done r') -> r' = Normal 5.
Proof.
  apply (dbConnect_callers_share_outcome
           (Some "mongodb://localhost:27017/test-db")
           [Conn.Call; Conn.Call; Conn.Settle 0 (Normal 5); Conn.Resume 0; Conn.Call]
           (Conn.mkSys
              (Conn.mkWorld (Some "mongodb://localhost:27017/test-db")
                            (Conn.mkCache (Some 5) (Some 0)) [Conn.Fulfilled 5])
              [Conn.Done (Normal 5); Conn.Awaiting 0; Conn.Done (Normal 5)])
           2 (Normal 5)); reflexivity.
Defined.

(** X7. Once the route's accessor has cached a handle, the handle is the
    value the connect attempt was fulfilled with, and nothing that happens
    later changes the module state: every later call returns that handle. *)
Theorem dbConnect_handle_stable uri tr s h tr' s' :
  Conn.configured uri = true ->
  Conn.run Conn.dbConnect tr (Conn.boot uri) = Some s ->
  Conn.conn (Conn.cache (Conn.world s)) = Some h ->
  Conn.run Conn.dbConnect tr' s = Some s' ->
  Conn.heap (Conn.world s) = [Conn.Fulfilled h]
  /\ Conn.world s' = Conn.world s
  /\ Conn.dbConnect_start (Conn.world s') = (Conn.Done (Normal h), Conn.world s').
Proof.
  intros Hu Hrun Hc Hrun'.
  pose proof (run_attempt_outcome tr _ s (attempt_outcome_boot uri Hu) Hrun) as Hinv.
  pose proof Hinv as (Hus & _ & Hconn & _).
  assert (Conn.heap (Conn.world s) = [Conn.Fulfilled h]) as Hh by by apply Hconn.
  assert (Conn.attempt_outcome s' /\ Conn.world s' = Conn.world s) as [_ Hw].
  { eapply (run_preserves Conn.dbConnect
              (fun s1 => Conn.attempt_outcome s1 /\ Conn.world s1 = Conn.world s));
      [|split; [exact Hinv|done]|exact Hrun'].
    intros e s1 s2 [Hinv1 Hw1] Hstep. split; [by eapply step_attempt_outcome|].
    rewrite <- Hw1. eapply (step_world_frozen e s1 s2 (Conn.Fulfilled h)); try done.
    - by rewrite Hw1.
    - intros h' [= <-]. by rewrite Hw1. }
  split; [done|]. split; [done|].
  rewrite Hw. unfold Conn.dbConnect_start. by rewrite Hus, Hc.
Qed.

Lemma dbConnect_handle_stable_witness :
  Conn.heap (Conn.mkWorld (Some "mongodb://localhost:27017/test-db")
                          (Conn.mkCache (Some 5) (Some 0)) [Conn.Fulfilled 5])
  = [Conn.Fulfilled 5]
  /\ Conn.world
       (Conn.mkSys
          (Conn.mkWorld (Some "mongodb://localhost:27017/test-db")
                        (Conn.mkCache (Some 5) (Some 0)) [Conn.Fulfilled 5])
          [Conn.Done (Normal 5); Conn.Done (Normal 5); Conn.Done (Normal 5)])
     = Conn.mkWorld (Some "mongodb://localhost:27017/test-db")
                    (Conn.mkCache (Some 5) (Some 0)) [Conn.Fulfilled 5]
  /\ Conn.dbConnect_start
       (Conn.mkWorld (Some "mongodb://localhost:27017/test-db")
                     (Conn.mkCache (Some 5) (Some 0)) [Conn.Fulfilled 5])
     = (Conn.Done (Normal 5),
        Conn.mkWorld (Some "mongodb://localhost:27017/test-db")
                     (Conn.mkCache (Some 5) (Some 0)) [Conn.Fulfilled 5]).
Proof.
  apply (dbConnect_handle_stable
           (Some "mongodb://localhost:27017/test-db")
           [Conn.Call; Conn.Settle 0 (Normal 5); Conn.Resume 0]
           (Conn.mkSys
              (Conn.mkWorld (Some "mongodb://localhost:27017/test-db")
                            (Conn.mkCache (Some 5) (Some 0)) [Conn.Fulfilled 5])
              [Conn.Done (Normal 5)])
           5 [Conn.Call; Conn.Call]); reflexivity.
Defined.

(** X8. Once the connect attempt of the route's accessor is rejected with
    [e], the failure is permanent: nothing that happens later changes the
    module state, [mongoose.connect] is not invoked again, no handle is ever
    cached, and every call that settles, before or after, fails with [e]. *)
Theorem dbConnect_failure_is_permanent uri tr s e tr' s' :
  Conn.configured uri = true ->
  Conn.run Conn.dbConnect tr (Conn.boot uri) = Some s ->
  Conn.heap (Conn.world s) !! 0 = Some (Conn.Rejected e) ->
  Conn.run Conn.dbConnect tr' s = Some s' ->
  Conn.world s' = Conn.world s
  /\ Conn.connect_calls (Conn.world s') = 1
  /\ Conn.conn (Conn.cache (Conn.world s')) = None
  /\ forall i r, Conn.calls s' !! i = Some (Conn.Done r) -> r = Throw e.
Proof.
  intros Hu Hrun He Hrun'.
  pose proof (run_attempt_outcome tr _ s (attempt_outcome_boot uri Hu) Hrun) as Hinv.
  pose proof Hinv as (_ & Hone & Hconn & _).
  assert (Conn.heap (Conn.world s) = [Conn.Rejected e]) as Hh.
  { destruct Hone as [[_ Hh]|[_ Hlen]]; [by rewrite Hh in He|].
    by destruct (singleton_lookup _ _ _ Hlen He). }
  assert (Conn.attempt_outcome s' /\ Conn.world s' = Conn.world s) as [Hinv' Hw].
  { eapply (run_preserves Conn.dbConnect
              (fun s1 => Conn.attempt_outcome s1 /\ Conn.world s1 = Conn.world s));
      [|split; [exact Hinv|done]|exact Hrun'].
    intros ev s1 s2 [Hinv1 Hw1] Hstep. split; [by eapply step_attempt_outcome|].
    rewrite <- Hw1. eapply (step_world_frozen ev s1 s2 (Conn.Rejected e)); try done.
    by rewrite Hw1. }
  destruct Hinv' as (_ & _ & _ & Hdone').
  split; [done|]. rewrite Hw. split; [unfold Conn.connect_calls; by rewrite Hh|].
  split.
  - destruct (Conn.conn (Conn.cache (Conn.world s))) as [h|] eqn:Hc; [|done].
    specialize (Hconn h eq_refl). congruence.
  - intros i r Hi. apply Hdone' in Hi. rewrite Hw, Hh in Hi.
    injection Hi as Hi. by destruct r; simpl in Hi; [|injection Hi as <-].
Qed.

Lemma dbConnect_failure_is_permanent_witness :
  Conn.connect_calls
    (Conn.mkWorld (Some "mongodb://localhost:27017/test-db")
                  (Conn.mkCache None (Some 0)) [Conn.Rejected "Transient error"]) = 1
  /\ Conn.conn
       (Conn.cache
          (Conn.mkWorld (Some "mongodb://localhost:27017/test-db")
                        (Conn.mkCache None (Some 0)) [Conn.Rejected "Transient error"]))
     = None.
Proof.
  pose proof (dbConnect_failure_is_permanent
           (Some "mongodb://localhost:27017/test-db")
           [Conn.Call; Conn.Settle 0 (Throw "Transient error"); Conn.Resume 0]
           (Conn.mkSys
              (Conn.mkWorld (Some "mongodb://localhost:27017/test-db")
                            (Conn.mkCache None (Some 0)) [Conn.Rejected "Transient error"])
              [Conn.Done (Throw "Transient error")])
           "Transient error"
           [Conn.Call; Conn.Resume 1]
           (Conn.mkSys
              (Conn.mkWorld (Some "mongodb://localhost:27017/test-db")
                            (Conn.mkCache None (Some 0)) [Conn.Rejected "Transient error"])
              [Conn.Done (Throw "Transient error"); Conn.Done (Throw "Transient error")])
           eq_refl eq_refl eq_refl eq_refl) as (_ & H1 & H2 & _).
  split; [exact H1 | exact H2].
Defined.

(** ** The accessor of the library module *)

Section LibMore.
Import Conn LibMongodb.
Local Open Scope list_scope.

Lemma load_boot uri s0 : load uri = Normal s0 -> s0 = boot uri.
Proof. unfold load. destruct (negb _); by intros [=]. Qed.

Lemma connectDB_calls_waiting n s p :
  conn (cache (world s)) = None ->
  promise (cache (world s)) = Some p ->
  run connectDB (replicate n Call) s
  = Some (mkSys (world s) (calls s ++ replicate n (Awaiting p))).
Proof.
  revert s. induction n as [|n IH]; intros s Hc Hp; simpl.
  - rewrite app_nil_r. by destruct s.
  - unfold connectDB_start. rewrite Hc, Hp.
    rewrite IH by done. simpl. by rewrite <- app_assoc.
Qed.

Lemma step_connectDB_cached e s s' :
  is_Some (conn (cache (world s))) ->
  step connectDB e s = Some s' ->
  is_Some (conn (cache (world s')))
  /\ connect_calls (world s') = connect_calls (world s).
Proof.
  intros [h Hc]. destruct e as [|p r|i]; simpl.
  - unfold connectDB_start. rewrite Hc. intros [= <-]. simpl.
    split; [by exists h|done].
  - destruct (heap (world s) !! p) as [[| |]|]; try done.
    intros [= <-]. simpl. split; [by exists h|].
    unfold connect_calls. simpl. by rewrite length_insert.
  - destruct (calls s !! i) as [[|p]|]; try done. unfold connectDB_resume.
    destruct (heap (world s) !! p) as [[|h'|e]|]; try done; intros [= <-]; simpl.
    + split; [by exists h'|done].
    + split; [by exists h|done].
Qed.

Lemma step_cached_is_fulfilled e s s' :
  cached_is_fulfilled s -> step connectDB e s = Some s' -> cached_is_fulfilled s'.
Proof.
  unfold cached_is_fulfilled. intros Inv. destruct e as [|p r|i]; simpl.
  - unfold connectDB_start.
    destruct (conn (cache (world s))) as [h|] eqn:Hc;
      [intros [= <-]; simpl; by rewrite Hc|].
    destruct (promise (cache (world s))) as [q|];
      intros [= <-]; simpl; by rewrite ?Hc.
  - destruct (heap (world s) !! p) as [[| |]|] eqn:Hp; try done.
    intros [= <-]. simpl. intros h Hc. destruct (Inv h Hc) as [q Hq].
    exists q. rewrite list_lookup_insert_ne; [done|]. intros ->.
    assert (Some Pending = Some (Fulfilled h)) as Habs
      by (etrans; [symmetry; exact Hp | exact Hq]).
    done.
  - destruct (calls s !! i) as [[|p]|]; try done. unfold connectDB_resume.
    destruct (heap (world s) !! p) as [[|h|e]|] eqn:Hp; try done; intros [= <-]; simpl.
    + intros h' [= <-]. by exists p.
    + done.
Qed.

End LibMore.

(** X9. For the library accessor, loaded with a URI: any number [n >= 1] of
    calls made before the first attempt settles invoke [mongoose.connect] once
    and all wait for that one promise. *)
Theorem connectDB_concurrent_calls uri s0 n :
  LibMongodb.load uri = Normal s0 ->
  1 <= n ->
  Conn.run LibMongodb.connectDB (replicate n Conn.Call) s0
  = Some (Conn.mkSys (Conn.mkWorld uri (Conn.mkCache None (Some 0)) [Conn.Pending])
                     (replicate n (Conn.Awaiting 0))).
Proof.
  intros ->%load_boot Hn. destruct n as [|n]; [lia|]. simpl.
  by rewrite (connectDB_calls_waiting n _ 0).
Qed.

Lemma connectDB_concurrent_calls_witness :
  Conn.run LibMongodb.connectDB (replicate 3 Conn.Call)
           (Conn.boot (Some "mongodb://localhost:27017/test-db"))
  = Some (Conn.mkSys
            (Conn.mkWorld (Some "mongodb://localhost:27017/test-db")
                          (Conn.mkCache None (Some 0)) [Conn.Pending])
            (replicate 3 (Conn.Awaiting 0))).
Proof.
  apply (connectDB_concurrent_calls (Some "mongodb://localhost:27017/test-db"));
    [reflexivity | lia].
Defined.

(** X10. Once the library accessor holds a handle, it holds one for good and
    never invokes [mongoose.connect] again, whatever happens later. *)
Theorem connectDB_cached_forever s h tr s' :
  Conn.conn (Conn.cache (Conn.world s)) = Some h ->
  Conn.run LibMongodb.connectDB tr s = Some s' ->
  is_Some (Conn.conn (Conn.cache (Conn.world s')))
  /\ Conn.connect_calls (Conn.world s') = Conn.connect_calls (Conn.world s).
Proof.
  intros Hc Hrun.
  eapply (run_preserves LibMongodb.connectDB
            (fun s1 => is_Some (Conn.conn (Conn.cache (Conn.world s1)))
                       /\ Conn.connect_calls (Conn.world s1)
                          = Conn.connect_calls (Conn.world s)));
    [| |exact Hrun].
  - intros e s1 s2 [H1 H2] Hstep.
    destruct (step_connectDB_cached e s1 s2 H1 Hstep) as [H3 H4].
    split; [done|]. by rewrite H4.
  - split; [by exists h|done].
Qed.

Lemma connectDB_cached_forever_witness :
  is_Some (Conn.conn (Conn.cache (Conn.world
     (Conn.mkSys
        (Conn.mkWorld (Some "mongodb://localhost:27017/test-db")
                      (Conn.mkCache (Some 5) (Some 0)) [Conn.Fulfilled 5])
        [Conn.Done (Normal 5); Conn.Done (Normal 5); Conn.Done (Normal 5)]))))
  /\ Conn.connect_calls
       (Conn.mkWorld (Some "mongodb://localhost:27017/test-db")
                     (Conn.mkCache (Some 5) (Some 0)) [Conn.Fulfilled 5])
     = Conn.connect_calls
         (Conn.mkWorld (Some "mongodb://localhost:27017/test-db")
                       (Conn.mkCache (Some 5) (Some 0)) [Conn.Fulfilled 5]).
Proof.
  apply (connectDB_cached_forever
           (Conn.mkSys
              (Conn.mkWorld (Some "mongodb://localhost:27017/test-db")
                            (Conn.mkCache (Some 5) (Some 0)) [Conn.Fulfilled 5])
              [Conn.Done (Normal 5)])
           5 [Conn.Call; Conn.Call]); reflexivity.
Defined.

(** X11. A handle cached by the library accessor is always the value one of
    its connect promises was fulfilled with. *)
Theorem connectDB_cached_handle_origin uri s0 tr s h :
  LibMongodb.load uri = Normal s0 ->
  Conn.run LibMongodb.connectDB tr s0 = Some s ->
  Conn.conn (Conn.cache (Conn.world s)) = Some h ->
  exists p, Conn.heap (Conn.world s) !! p = Some (Conn.Fulfilled h).
Proof.
  intros ->%load_boot Hrun.
  eapply (run_preserves LibMongodb.connectDB Conn.cached_is_fulfilled);
    [apply step_cached_is_fulfilled| |exact Hrun].
  by intros h'.
Qed.

Lemma connectDB_cached_handle_origin_witness :
  exists p,
    [Conn.Rejected "Transient error"; Conn.Fulfilled 5] !! p = Some (Conn.Fulfilled 5).
Proof.
  apply (connectDB_cached_handle_origin
           (Some "mongodb://localhost:27017/test-db")
           (Conn.boot (Some "mongodb://localhost:27017/test-db"))
           [Conn.Call; Conn.Settle 0 (Throw "Transient error"); Conn.Resume 0;
            Conn.Call; Conn.Settle 1 (Normal 5); Conn.Resume 1]
           (Conn.mkSys
              (Conn.mkWorld (Some "mongodb://localhost:27017/test-db")
                            (Conn.mkCache (Some 5) (Some 1))
                            [Conn.Rejected "Transient error"; Conn.Fulfilled 5])
              [Conn.Done (Throw "Transient error"); Conn.Done (Normal 5)])
           5); reflexivity.
Defined.

(** X12. The library accessor recovers from a rejected attempt: the caller
    that waited gets the error, the slot of the attempt is cleared, and the next
    call invokes [mongoose.connect] once more and waits for the new promise. *)
Theorem connectDB_retries_after_rejection s i p e :
  Conn.calls s !! i = Some (Conn.Awaiting p) ->
  Conn.heap (Conn.world s) !! p = Some (Conn.Rejected e) ->
  Conn.conn (Conn.cache (Conn.world s)) = None ->
  exists s1 s2,
    Conn.step LibMongodb.connectDB (Conn.Resume i) s = Some s1
    /\ Conn.calls s1 !! i = Some (Conn.Done (Throw e))
    /\ Conn.promise (Conn.cache (Conn.world s1)) = None
    /\ Conn.step LibMongodb.connectDB Conn.Call s1 = Some s2
    /\ Conn.connect_calls (Conn.world s2) = S (Conn.connect_calls (Conn.world s))
    /\ Conn.promise (Conn.cache (Conn.world s2))
       = Some (Conn.connect_calls (Conn.world s))
    /\ Conn.calls s2
       = (<[i := Conn.Done (Throw e)]> (Conn.calls s)
          ++ [Conn.Awaiting (Conn.connect_calls (Conn.world s))])%list.
Proof.
  intros Hi Hp Hc.
  destruct (connectDB_failure_resets (Conn.world s) p e Hc Hp) as (w' & Hres & Hpr & Hst).
  do 2 eexists. simpl. rewrite Hi, Hres. split; [reflexivity|]. simpl.
  split; [apply list_lookup_insert_eq; by eapply lookup_lt_Some|].
  split; [done|]. rewrite Hst. split; [reflexivity|]. simpl.
  unfold Conn.connect_calls. simpl. rewrite length_app. simpl.
  split; [lia|]. done.
Qed.

Lemma connectDB_retries_after_rejection_witness :
  exists s1 s2,
    Conn.step LibMongodb.connectDB (Conn.Resume 0)
      (Conn.mkSys
         (Conn.mkWorld (Some "mongodb://localhost:27017/test-db")
                       (Conn.mkCache None (Some 0)) [Conn.Rejected "Transient error"])
         [Conn.Awaiting 0]) = Some s1
    /\ Conn.calls s1 !! 0 = Some (Conn.Done (Throw "Transient error"))
    /\ Conn.promise (Conn.cache (Conn.world s1)) = None
    /\ Conn.step LibMongodb.connectDB Conn.Call s1 = Some s2
    /\ Conn.connect_calls (Conn.world s2) = 2
    /\ Conn.promise (Conn.cache (Conn.world s2)) = Some 1
    /\ Conn.calls s2 = [Conn.Done (Throw "Transient error"); Conn.Awaiting 1].
Proof.
  exact (connectDB_retries_after_rejection
           (Conn.mkSys
              (Conn.mkWorld (Some "mongodb://localhost:27017/test-db")
                            (Conn.mkCache None (Some 0)) [Conn.Rejected "Transient error"])
              [Conn.Awaiting 0])
           0 0 "Transient error" eq_refl eq_refl eq_refl).
Defined.

(** ** The Booking model: emails, outcomes of a creation, the store *)

Section BookingMore.
Import JS BookingModel.
Local Open Scope list_scope.

Lemma code_at c : (code c =? 64)%N = true -> c = "@"%char.
Proof. destruct c as [[] [] [] [] [] [] [] []]; vm_compute; congruence. Qed.

Lemma code_dot c : (code c =? 46)%N = true -> c = "."%char.
Proof. destruct c as [[] [] [] [] [] [] [] []]; vm_compute; congruence. Qed.

Lemma email_char_not_at c : email_char c = true -> (code c =? 64)%N = false.
Proof. unfold email_char. intros [_ H]%andb_true_iff. by apply negb_true_iff. Qed.

Lemma split_at_Some l a d : split_at l = Some (a, d) -> l = a ++ "@"%char :: d.
Proof.
  revert a. induction l as [|c r IH]; intros a; simpl; [done|].
  destruct (code c =? 64)%N eqn:Hc.
  - intros [= <- <-]. by rewrite (code_at c).
  - destruct (split_at r) as [[a' d']|]; [|done].
    intros [= <- <-]. simpl. by rewrite (IH a').
Qed.

Lemma split_at_app a d :
  forallb email_char a = true -> split_at (a ++ "@"%char :: d) = Some (a, d).
Proof.
  induction a as [|c a IH]; simpl; [done|].
  intros [Hc Ha]%andb_true_iff. by rewrite (email_char_not_at c), IH.
Qed.

Lemma dot_inside_spec r :
  dot_inside r = true <-> exists b c, r = b ++ "."%char :: c /\ c <> [].
Proof.
  induction r as [|x r IH]; simpl.
  - split; [done|]. intros (b & c & H & _). by destruct b.
  - rewrite orb_true_iff, andb_true_iff, IH. split.
    + intros [[Hx Hr]|(b & c & -> & Hc)].
      * exists [], r. rewrite (code_dot x) by done. split; [done|].
        apply negb_true_iff, bool_decide_eq_false in Hr. done.
      * by exists (x :: b), c.
    + intros (b & c & H & Hc). destruct b as [|y b]; simpl in H.
      * injection H as -> ->. left. split; [done|].
        by apply negb_true_iff, bool_decide_eq_false.
      * injection H as -> ->. right. by exists b, c.
Qed.

(** *** [trim] and [toLowerCase] *)

Lemma drop_leading_map p f l :
  (forall c, p (f c) = p c) ->
  drop_leading p (map f l) = map f (drop_leading p l).
Proof.
  intros Hp. induction l as [|c r IH]; simpl; [done|].
  rewrite Hp. by destruct (p c).
Qed.

Lemma drop_trailing_map p f l :
  (forall c, p (f c) = p c) ->
  drop_trailing p (map f l) = map f (drop_trailing p l).
Proof.
  intros Hp. induction l as [|c r IH]; [done|].
  simpl map. rewrite !drop_trailing_cons, IH, Hp.
  destruct (drop_trailing p r); simpl; [by destruct (p c)|done].
Qed.

Lemma drop_leading_idem p l : drop_leading p (drop_leading p l) = drop_leading p l.
Proof.
  induction l as [|c r IH]; simpl; [done|].
  destruct (p c) eqn:Hc; [done|]. simpl. by rewrite Hc.
Qed.

Lemma trim_chars_idem l :
  drop_trailing is_space (drop_leading is_space
    (drop_trailing is_space (drop_leading is_space l)))
  = drop_trailing is_space (drop_leading is_space l).
Proof.
  rewrite <- (drop_both_comm is_space (drop_leading is_space l)).
  by rewrite drop_leading_idem, drop_trailing_idem.
Qed.

Lemma lower_char_idem c : lower_char (lower_char c) = lower_char c.
Proof. destruct c as [[] [] [] [] [] [] [] []]; vm_compute; reflexivity. Qed.

Lemma set_email_chars raw :
  chars (set_email raw)
  = map lower_char (drop_trailing is_space (drop_leading is_space (chars raw))).
Proof. unfold set_email, toLowerCase, trim. by rewrite !chars_text. Qed.

Lemma toLowerCase_set_email raw : toLowerCase (set_email raw) = set_email raw.
Proof.
  unfold toLowerCase at 1. rewrite set_email_chars, map_map.
  unfold set_email, toLowerCase, trim. rewrite chars_text. f_equal.
  apply map_ext. intros c. apply lower_char_idem.
Qed.

Lemma trim_set_email raw : trim (set_email raw) = set_email raw.
Proof.
  unfold trim at 1. rewrite set_email_chars.
  rewrite (drop_leading_map is_space), (drop_trailing_map is_space)
    by apply lower_keeps_space.
  rewrite trim_chars_idem.
  unfold set_email, toLowerCase, trim. by rewrite chars_text.
Qed.

Lemma set_email_idem raw : set_email (set_email raw) = set_email raw.
Proof.
  unfold set_email at 1. by rewrite trim_set_email, toLowerCase_set_email.
Qed.

(** *** What a creation returns *)

Lemma check_email_inr i mail :
  check_email i = inr mail ->
  exists raw, i = Some raw /\ mail = set_email raw /\ emailRegex mail = true.
Proof.
  destruct i as [raw|]; simpl; [|done].
  destruct (String.eqb _ _); [done|].
  destruct (emailRegex (set_email raw)) eqn:He; [|done].
  intros [= <-]. by exists raw.
Qed.

Lemma check_eventId_inr st i oid :
  check_eventId st i = inr oid -> i = Id oid /\ is_Some (findById st oid).
Proof.
  destruct i as [|raw|o]; simpl; try done.
  destruct (eventId_validator st o) eqn:Hv; [|done].
  intros [= <-]. split; [done|]. by apply eventId_validator_spec.
Qed.

Lemma create_inr fields fresh now st b st' :
  create fields fresh now st = (inr b, st') ->
  exists oid raw,
    given_eventId fields = Id oid
    /\ given_email fields = Some raw
    /\ is_Some (findById st oid)
    /\ emailRegex (set_email raw) = true
    /\ b = mkBooking fresh oid (set_email raw) now now
    /\ st' = mkStore (events st) (bookings st ++ [b]).
Proof.
  unfold create.
  destruct (check_eventId st _) as [e1|oid] eqn:H1;
    destruct (check_email _) as [e2|mail] eqn:H2; try done.
  apply check_eventId_inr in H1 as [Hid Hev].
  apply check_email_inr in H2 as (raw & Hraw & -> & Hre).
  rewrite (proj2 (pre_save_agrees st oid) (proj2 (eventId_validator_spec st oid) Hev)).
  intros [= <- <-]. by exists oid, raw.
Qed.

End BookingMore.

(** X13. The email validator accepts exactly the texts of the shape
    [local@domain.tld]: a local part, [@], and a domain holding a dot with text
    on both sides, where no part is empty or holds white space or another
    [@]. *)
Theorem emailRegex_spec (value : string) :
  BookingModel.emailRegex value = true <-> BookingModel.email_shape (JS.chars value).
Proof.
  unfold BookingModel.emailRegex, BookingModel.email_shape. split.
  - destruct (BookingModel.split_at (JS.chars value)) as [[a d]|] eqn:Hs; [|done].
    apply split_at_Some in Hs.
    intros [[[Ha Hfa]%andb_true_iff Hfd]%andb_true_iff Hdot]%andb_true_iff.
    destruct d as [|x r]; [done|].
    apply dot_inside_spec in Hdot as (b & c & -> & Hc).
    exists a, (x :: b), c. split; [done|].
    apply negb_true_iff, bool_decide_eq_false in Ha.
    repeat split; try done.
    change (x :: b ++ "."%char :: c)%list with ((x :: b) ++ "."%char :: c)%list in Hfd.
    rewrite forallb_app in Hfd. apply andb_true_iff in Hfd as [Hb Hc'].
    simpl in Hc'.
    by rewrite !forallb_app, Hfa, Hb, Hc'.
  - intros (a & b & c & -> & Ha & Hb & Hc & Hall).
    rewrite !forallb_app in Hall.
    apply andb_true_iff in Hall as [Hfa [Hfb Hfc]%andb_true_iff].
    rewrite split_at_app by done.
    rewrite Hfa, forallb_app, Hfb. simpl forallb. rewrite Hfc.
    rewrite bool_decide_eq_false_2 by done. simpl.
    destruct b as [|x b]; [done|]. simpl.
    apply dot_inside_spec. by exists b, c.
Qed.

(** X14. The email setters give a normal form: applying them again, or
    [toLowerCase] or [trim] alone, changes nothing. *)
Theorem set_email_normal_form (raw : string) :
  BookingModel.set_email (BookingModel.set_email raw) = BookingModel.set_email raw
  /\ JS.toLowerCase (BookingModel.set_email raw) = BookingModel.set_email raw
  /\ JS.trim (BookingModel.set_email raw) = BookingModel.set_email raw.
Proof.
  split; [apply set_email_idem|].
  split; [apply toLowerCase_set_email | apply trim_set_email].
Qed.


(** X16. A creation that succeeds was given the ObjectId of an existing Event
    and an email; the booking returned has the fresh [_id], that Event, both
    timestamps equal to the time of the write, and an email that passes the
    validator and is in normal form; the store gains exactly that booking,
    last, and its Events are untouched. *)
Theorem create_success fields fresh now st b st' :
  BookingModel.create fields fresh now st = (inr b, st') ->
  BookingModel.given_eventId fields = BookingModel.Id (BookingModel.eventId b)
  /\ is_Some (BookingModel.findById st (BookingModel.eventId b))
  /\ BookingModel._id b = fresh
  /\ BookingModel.createdAt b = now /\ BookingModel.updatedAt b = now
  /\ BookingModel.emailRegex (BookingModel.email b) = true
  /\ BookingModel.set_email (BookingModel.email b) = BookingModel.email b
  /\ BookingModel.events st' = BookingModel.events st
  /\ BookingModel.bookings st' = (BookingModel.bookings st ++ [b])%list.
Proof.
  intros (oid & raw & Hid & Hmail & Hev & Hre & -> & ->)%create_inr. simpl.
  repeat split; try done.
  apply set_email_idem.
Qed.

Lemma create_success_witness :
  BookingModel.given_eventId
    (BookingModel.mkFields (BookingModel.Id 7%N) (Some "  Test@Example.COM "))
  = BookingModel.Id 7%N
  /\ is_Some (BookingModel.findById (BookingModel.mkStore {[ 7%N := ∅ ]} []) 7%N)
  /\ 1%N = 1%N
  /\ 1764576000000%Z = 1764576000000%Z /\ 1764576000000%Z = 1764576000000%Z
  /\ BookingModel.emailRegex "test@example.com" = true
  /\ BookingModel.set_email "test@example.com" = "test@example.com"
  /\ BookingModel.events
       (BookingModel.mkStore {[ 7%N := ∅ ]}
          [BookingModel.mkBooking 1%N 7%N "test@example.com" 1764576000000%Z 1764576000000%Z])
     = BookingModel.events (BookingModel.mkStore {[ 7%N := ∅ ]} [])
  /\ BookingModel.bookings
       (BookingModel.mkStore {[ 7%N := ∅ ]}
          [BookingModel.mkBooking 1%N 7%N "test@example.com" 1764576000000%Z 1764576000000%Z])
     = ([] ++ [BookingModel.mkBooking 1%N 7%N "test@example.com"
                 1764576000000%Z 1764576000000%Z])%list.
Proof.
  apply (create_success
           (BookingModel.mkFields (BookingModel.Id 7%N) (Some "  Test@Example.COM "))
           1%N 1764576000000%Z (BookingModel.mkStore {[ 7%N := ∅ ]} [])
           (BookingModel.mkBooking 1%N 7%N "test@example.com" 1764576000000%Z 1764576000000%Z)
           (BookingModel.mkStore {[ 7%N := ∅ ]}
              [BookingModel.mkBooking 1%N 7%N "test@example.com"
                 1764576000000%Z 1764576000000%Z])).
  reflexivity.
Defined.

(** X17. Creation keeps the store referentially sound: if every booking of
    the store refers to an Event of the store, so does every booking after a
    creation, whether it succeeded or failed; the Events are never written. *)
Theorem create_keeps_referential fields fresh now st :
  BookingModel.referential st ->
  BookingModel.referential (snd (BookingModel.create fields fresh now st))
  /\ BookingModel.events (snd (BookingModel.create fields fresh now st))
     = BookingModel.events st.
Proof.
  intros Href.
  destruct (BookingModel.create fields fresh now st) as [[err|b] st'] eqn:Hc.
  - apply create_failed_writes_nothing in Hc as ->. done.
  - apply create_inr in Hc as (oid & raw & _ & _ & Hev & _ & -> & ->). simpl.
    split; [|done]. unfold BookingModel.referential. simpl.
    apply Forall_app. split; [exact Href|]. by constructor.
Qed.

Lemma create_keeps_referential_witness :
  BookingModel.referential
    (snd (BookingModel.create
            (BookingModel.mkFields (BookingModel.Id 7%N) (Some "a@b.co"))
            2%N 1764576000000%Z
            (BookingModel.mkStore {[ 7%N := ∅ ]}
               [BookingModel.mkBooking 1%N 7%N "test@example.com"
                  1764576000000%Z 1764576000000%Z])))
  /\ BookingModel.events
       (snd (BookingModel.create
               (BookingModel.mkFields (BookingModel.Id 7%N) (Some "a@b.co"))
               2%N 1764576000000%Z
               (BookingModel.mkStore {[ 7%N := ∅ ]}
                  [BookingModel.mkBooking 1%N 7%N "test@example.com"
                     1764576000000%Z 1764576000000%Z])))
     = BookingModel.events
         (BookingModel.mkStore {[ 7%N := ∅ ]}
            [BookingModel.mkBooking 1%N 7%N "test@example.com"
               1764576000000%Z 1764576000000%Z]).
Proof.
  apply (create_keeps_referential
           (BookingModel.mkFields (BookingModel.Id 7%N) (Some "a@b.co"))
           2%N 1764576000000%Z
           (BookingModel.mkStore {[ 7%N := ∅ ]}
              [BookingModel.mkBooking 1%N 7%N "test@example.com"
                 1764576000000%Z 1764576000000%Z])).
  constructor; [|constructor]. by eexists.
Defined.



(** X19. Nothing makes a booking unique: after a creation has succeeded, the
    same fields can be booked again, under an [_id] not yet in the store and at
    any time, and the store then holds both bookings, for the same Event and
    email. *)
Theorem create_twice fields fresh now st b st' fresh' now' :
  BookingModel.create fields fresh now st = (inr b, st') ->
  Forall (fun b0 => BookingModel._id b0 <> fresh') (BookingModel.bookings st') ->
  exists b',
    BookingModel.create fields fresh' now' st'
    = (inr b',
       BookingModel.mkStore (BookingModel.events st)
                            (BookingModel.bookings st ++ [b; b'])%list)
    /\ BookingModel.eventId b' = BookingModel.eventId b
    /\ BookingModel.email b' = BookingModel.email b.
Proof.
  intros (oid & raw & Hid & Hmail & Hev & Hre & -> & ->)%create_inr _.
  exists (BookingModel.mkBooking fresh' oid (BookingModel.set_email raw) now' now').
  split; [|done].
  destruct fields as [i m]. simpl in Hid, Hmail. subst i m.
  rewrite create_ok.
  - simpl. by rewrite <- app_assoc.
  - done.
  - unfold BookingModel.check_email. rewrite Hre.
    destruct (String.eqb_spec (BookingModel.set_email raw) "") as [He|]; [|done].
    by rewrite He in Hre.
Qed.

Lemma create_twice_witness :
  exists b',
    BookingModel.create
      (BookingModel.mkFields (BookingModel.Id 7%N) (Some "test@example.com"))
      2%N 1764576000001%Z
      (BookingModel.mkStore {[ 7%N := ∅ ]}
         [BookingModel.mkBooking 1%N 7%N "test@example.com"
            1764576000000%Z 1764576000000%Z])
    = (inr b',
       BookingModel.mkStore {[ 7%N := ∅ ]}
         ([] ++ [BookingModel.mkBooking 1%N 7%N "test@example.com"
                   1764576000000%Z 1764576000000%Z; b'])%list)
    /\ BookingModel.eventId b' = 7%N
    /\ BookingModel.email b' = "test@example.com".
Proof.
  refine (create_twice
            (BookingModel.mkFields (BookingModel.Id 7%N) (Some "test@example.com"))
            1%N 1764576000000%Z (BookingModel.mkStore {[ 7%N := ∅ ]} [])
            (BookingModel.mkBooking 1%N 7%N "test@example.com"
               1764576000000%Z 1764576000000%Z)
            (BookingModel.mkStore {[ 7%N := ∅ ]}
               [BookingModel.mkBooking 1%N 7%N "test@example.com"
                  1764576000000%Z 1764576000000%Z])
            2%N 1764576000001%Z eq_refl _).
  constructor; [simpl; discriminate | constructor].
Defined.

(** ** How the parts compose *)

Section Composition.
Import JS.
Local Open Scope list_scope.

Lemma alnum_slug_char c : Slug.alnum c = true -> Route.slug_char c = true.
Proof. destruct c as [[] [] [] [] [] [] [] []]; vm_compute; congruence. Qed.

Lemma hyphen_slug_char c : Slug.is_hyphen c = true -> Route.slug_char c = true.
Proof. destruct c as [[] [] [] [] [] [] [] []]; vm_compute; congruence. Qed.

Lemma hyphenated_slug_chars b l :
  Slug.hyphenated b l = true -> forallb Route.slug_char l = true.
Proof.
  revert b. induction l as [|c r IH]; intros b; simpl; [done|].
  destruct (Slug.alnum c) eqn:Hc.
  - intros Hr. by rewrite alnum_slug_char, (IH false).
  - intros [[Hh _]%andb_true_iff Hr]%andb_true_iff.
    by rewrite hyphen_slug_char, (IH true).
Qed.

End Composition.

(** X20. With the slug derivation modelled from the spec: the slug stored for
    a created Event, when it is not empty and has at most 100 characters, is a
    slug the route accepts. *)
Theorem created_slug_is_valid (T : string) :
  Slug.slug (Slug.create T) <> "" ->
  String.length (Slug.slug (Slug.create T)) <= 100 ->
  Route.isValidSlug (JS.VStr (Slug.slug (Slug.create T))) = true.
Proof.
  unfold Slug.create. simpl Slug.slug. intros Hne Hlen.
  unfold Route.isValidSlug.
  apply andb_true_iff. split; [apply andb_true_iff; split|].
  - destruct (Slug.slugify (JS.trim T)); [done|]. done.
  - by apply Nat.leb_le.
  - rewrite slugify_chars. fold (JS.chars (JS.text (Slug.slug_list (JS.chars (JS.trim T))))).
    rewrite chars_text.
    apply (hyphenated_slug_chars true), slug_list_hyphenated.
Qed.

Lemma created_slug_is_valid_witness :
  Route.isValidSlug (JS.VStr (Slug.slug (Slug.create "Event: 2025 @ #Tech!"))) = true.
Proof.
  apply (created_slug_is_valid "Event: 2025 @ #Tech!").
  - vm_compute. discriminate.
  - vm_compute. lia.
Defined.

(** X21. Without a configured URI, a request with a well-formed slug is
    answered 500: the call of [dbConnect] the handler awaits has thrown the
    configuration error, which is logged and not sent. *)
Theorem GET_unconfigured context env w r w' :
  Conn.configured (Conn.MONGODB_URI w) = false ->
  Conn.dbConnect_start w = (Conn.Done r, w') ->
  Route.dbConnect env = r ->
  Route.isValidSlug (Route.get_slug context) = true ->
  Route.GET context env
  = (Normal Route.internal_error,
     [Route.mkLog "[GET] /api/events/[slug] error"
                  "MONGODB_URI is not configured in environment variables"]).
Proof.
  intros Hu Hstart Henv Hv.
  unfold Conn.dbConnect_start in Hstart. rewrite Hu in Hstart. simpl in Hstart.
  injection Hstart as <- <-.
  apply GET_fails; [done|]. left. by rewrite Henv.
Qed.

Lemma GET_unconfigured_witness :
  Route.GET (Route.request "valid-slug")
            (Route.mkEnv (Throw Conn.not_configured) (fun _ => Normal None))
  = (Normal Route.internal_error,
     [Route.mkLog "[GET] /api/events/[slug] error"
                  "MONGODB_URI is not configured in environment variables"]).
Proof.
  apply (GET_unconfigured (Route.request "valid-slug") _
           (Conn.world (Conn.boot None)) (Throw Conn.not_configured)
           (Conn.world (Conn.boot None))); reflexivity.
Defined.
